(** * Hawkeye: the version resolver of the test suite and the queue handler

    A shallow embedding of [test-suite/application.py] (classes
    [AppURLBuilder] and [Application]) and of [QueueHandler.get] from
    [python27-app/taskqueue.py], with the properties the specification
    states about them.

    Python values are modelled as follows: [str] is [string], a [dict] keyed
    by strings is a [gmap string _], [set] is a [gset], [None]-able arguments
    are [option]s, and an exception is a value of [exn] returned on the left
    of a sum. *)

From Stdlib Require Import Ascii.
From stdpp Require Import base option list strings gmap sorting.

Local Open Scope char_scope.
Local Open Scope stdpp_scope.

#[local] Set Warnings "-clear-no-such-hyp".

(** ** Python builtins used by the program *)

Module Py.

(** The line feed character, written "\n" in the source. *)
Definition nl : string := String "010" "".

(** [s.lstrip("/")]: drop every leading slash. *)
Fixpoint lstrip_slash (s : string) : string :=
  match s with
  | String c s' => if Ascii.eqb c "/" then lstrip_slash s' else s
  | EmptyString => EmptyString
  end.

(** [s.rstrip("/")]: drop every trailing slash. *)
Fixpoint rstrip_slash (s : string) : string :=
  match s with
  | String c s' =>
      match rstrip_slash s' with
      | EmptyString => if Ascii.eqb c "/" then EmptyString else String c EmptyString
      | r => String c r
      end
  | EmptyString => EmptyString
  end.

(** A run of [n] slashes. *)
Fixpoint slashes (n : nat) : string :=
  match n with
  | O => EmptyString
  | S n' => String "/" (slashes n')
  end.

(** [sep.join(l)]. *)
Fixpoint join (sep : string) (l : list string) : string :=
  match l with
  | [] => ""
  | [x] => x
  | x :: l' => x +:+ sep +:+ join sep l'
  end.

(** [sorted(l)] on strings: byte-wise lexicographic order. *)
Definition sorted (l : list string) : list string := merge_sort String.le l.

(** [s.upper()] on a byte string. *)
Definition upper_char (c : ascii) : ascii :=
  let n := nat_of_ascii c in
  if decide (97 ≤ n ≤ 122) then ascii_of_nat (n - 32) else c.

Fixpoint upper (s : string) : string :=
  match s with
  | String c s' => String (upper_char c) (upper s')
  | EmptyString => EmptyString
  end.

(** [str(x)] for an argument that is a string or [None]. *)
Definition str_of_optional (o : option string) : string :=
  match o with
  | Some s => s
  | None => "None"
  end.

(** *** [str.format]

    The markup scanner of CPython 2.7 ([MarkupIterator_next] and
    [parse_field] of [string_format.h]) as a transition system over the
    characters of the format string. *)

Inductive format_error : Type :=
  | SingleCloseBrace     (* ValueError: Single '}' encountered in format string *)
  | SingleOpenBrace      (* ValueError: Single '{' encountered in format string *)
  | UnmatchedOpenBrace   (* ValueError: unmatched '{' in format *)
  | MissingConversion    (* ValueError: end of format while looking for conversion specifier *)
  | ExpectedColon        (* ValueError: expected ':' after format specifier *)
  | UnknownConversion (c : ascii) (* ValueError: Unknown conversion specifier *)
  | ArgumentNotFound (name : string) (* KeyError, IndexError: no such argument *)
  | FieldError (code : nat). (* an error of attribute lookup, indexing or __format__ *)

Definition format_result : Type := format_error + string.

(** Continue building the output text unless an error was raised. *)
Definition on_text (f : string → string) (r : format_result) : format_result :=
  match r with
  | inl e => inl e
  | inr text => inr (f text)
  end.

Inductive markup_state : Type :=
  | Literal                                  (* scanning literal text *)
  | OpenSeen                                 (* a '{' was just read in literal text *)
  | CloseSeen                                (* a '}' was just read in literal text *)
  | InField (count : nat) (body : string).   (* inside a field, [count] open braces *)

Inductive markup_action : Type :=
  | Goto (st : markup_state)
  | Emit (c : ascii)
  | Field (body : string)
  | Fail (e : format_error).

(** One character inside a replacement field: nested braces are counted, the
    brace that brings the count to zero ends the field. *)
Definition field_step (count : nat) (body : string) (c : ascii) : markup_action :=
  if Ascii.eqb c "{" then Goto (InField (S count) (body +:+ String c ""))
  else if Ascii.eqb c "}" then
    if decide (count ≤ 1) then Field body
    else Goto (InField (count - 1) (body +:+ String c ""))
  else Goto (InField count (body +:+ String c "")).

Definition markup_step (st : markup_state) (c : ascii) : markup_action :=
  match st with
  | Literal =>
      if Ascii.eqb c "{" then Goto OpenSeen
      else if Ascii.eqb c "}" then Goto CloseSeen
      else Emit c
  | OpenSeen => if Ascii.eqb c "{" then Emit c else field_step 1 "" c
  | CloseSeen => if Ascii.eqb c "}" then Emit c else Fail SingleCloseBrace
  | InField count body => field_step count body c
  end.

Definition markup_end (st : markup_state) : option format_error :=
  match st with
  | Literal => None
  | OpenSeen => Some SingleOpenBrace
  | CloseSeen => Some SingleCloseBrace
  | InField _ _ => Some UnmatchedOpenBrace
  end.

(** The output of [do_markup]: literal text is copied, each field is rendered
    when its closing brace is read, and the first error ends the scan. *)
Fixpoint markup (render : string → format_result) (st : markup_state)
    (s : string) : format_result :=
  match s with
  | EmptyString =>
      match markup_end st with
      | Some e => inl e
      | None => inr ""
      end
  | String c s' =>
      match markup_step st c with
      | Goto st' => markup render st' s'
      | Emit a => on_text (String a) (markup render Literal s')
      | Field body =>
          match render body with
          | inl e => inl e
          | inr text => on_text (String.app text) (markup render Literal s')
          end
      | Fail e => inl e
      end
  end.

(** The fields of a format string in the order they are closed, and the
    lexical error that stops the scan, if any. *)
Fixpoint scan_fields (st : markup_state) (s : string)
    : list string * option format_error :=
  match s with
  | EmptyString => ([], markup_end st)
  | String c s' =>
      match markup_step st c with
      | Goto st' => scan_fields st' s'
      | Emit _ => scan_fields Literal s'
      | Field body => let r := scan_fields Literal s' in (body :: r.1, r.2)
      | Fail e => ([], Some e)
      end
  end.

(** [parse_field]: the field name runs up to the first ':' or '!'; after '!'
    comes one conversion character, after which only ':' may follow. *)
Fixpoint parse_field (body : string)
    : format_error + (string * option ascii * string) :=
  match body with
  | EmptyString => inr ("", None, "")
  | String c rest =>
      if Ascii.eqb c ":" then inr ("", None, rest)
      else if Ascii.eqb c "!" then
        match rest with
        | EmptyString => inl MissingConversion
        | String conv EmptyString =>
            inr ("", if Ascii.eqb conv "000" then None else Some conv, "")
        | String conv (String c' spec) =>
            if Ascii.eqb c' ":"
            then inr ("", if Ascii.eqb conv "000" then None else Some conv, spec)
            else inl ExpectedColon
        end
      else
        match parse_field rest with
        | inl e => inl e
        | inr (name, conv, spec) => inr (String c name, conv, spec)
        end
  end.

(** [field_name_split]: the argument name is the part of the field name before
    the first '.' or '['. *)
Fixpoint field_name_split (name : string) : string * string :=
  match name with
  | EmptyString => ("", "")
  | String c rest =>
      if Ascii.eqb c "." || Ascii.eqb c "[" then ("", name)
      else let r := field_name_split rest in (String c r.1, r.2)
  end.

(** The argument a field refers to, whatever follows it. *)
Fixpoint field_argument (body : string) : string :=
  match body with
  | EmptyString => ""
  | String c rest =>
      if Ascii.eqb c ":" || Ascii.eqb c "!" || Ascii.eqb c "." || Ascii.eqb c "["
      then "" else String c (field_argument rest)
  end.

(** [output_markup] for a call [fmt.format(lang=language)]: the only argument
    is the keyword [lang], a string.  A field that is the bare name, with no
    conversion or with [!s], and with an empty format specification is
    replaced by the string itself.  What attribute access, indexing, [!r] and a
    non-empty format specification produce is given by [extended]. *)
Definition render_lang_field
    (extended : string → string → option ascii → string → format_result)
    (language : string) (body : string) : format_result :=
  match parse_field body with
  | inl e => inl e
  | inr (name, conv, spec) =>
      let (first, rest) := field_name_split name in
      if negb (String.eqb first "lang") then inl (ArgumentNotFound first)
      else if negb (String.eqb rest "") then extended language rest conv spec
      else
        match conv with
        | None => if String.eqb spec "" then inr language
                  else extended language rest conv spec
        | Some c =>
            if Ascii.eqb c "s" then
              if String.eqb spec "" then inr language
              else extended language rest conv spec
            else if Ascii.eqb c "r" then extended language rest conv spec
            else inl (UnknownConversion c)
        end
  end.

(** [fmt.format(lang=language)]. *)
Definition format_lang
    (extended : string → string → option ascii → string → format_result)
    (language : string) (fmt : string) : format_result :=
  markup (render_lang_field extended language) Literal fmt.

(** [s.startswith(p)]. *)
Fixpoint startswith (p s : string) : bool :=
  match p with
  | EmptyString => true
  | String a p' =>
      match s with
      | EmptyString => false
      | String b s' => Ascii.eqb a b && startswith p' s'
      end
  end.

(** The placeholder "{lang}" followed by [rest]. *)
Definition placeholder (rest : string) : string :=
  String "{" (String "l" (String "a" (String "n" (String "g" (String "}" rest))))).

(** The reading the specification gives of [path.format(lang=language)]:
    every occurrence of the placeholder "{lang}" is replaced by the language,
    as [path.replace("{lang}", language)] does.  [skip] counts the characters
    of a placeholder still to be passed over. *)
Fixpoint replace_lang_from (skip : nat) (language s : string) : string :=
  match s with
  | EmptyString => EmptyString
  | String c s' =>
      match skip with
      | S k => replace_lang_from k language s'
      | O =>
          if startswith "{lang}" s
          then language +:+ replace_lang_from 5 language s'
          else String c (replace_lang_from 0 language s')
      end
  end.

Definition replace_lang (language s : string) : string :=
  replace_lang_from 0 language s.

(** A path in which braces occur only as part of the placeholder "{lang}". *)
Fixpoint only_lang_placeholders_from (skip : nat) (s : string) : bool :=
  match s with
  | EmptyString => true
  | String c s' =>
      match skip with
      | S k => only_lang_placeholders_from k s'
      | O =>
          if startswith "{lang}" s then only_lang_placeholders_from 5 s'
          else negb (Ascii.eqb c "{" || Ascii.eqb c "}")
               && only_lang_placeholders_from 0 s'
      end
  end.

Definition only_lang_placeholders (s : string) : bool :=
  only_lang_placeholders_from 0 s.

(** A string without the character '.'. *)
Fixpoint dotless (s : string) : bool :=
  match s with
  | EmptyString => true
  | String c s' => negb (Ascii.eqb c ".") && dotless s'
  end.

End Py.

(** ** Exceptions raised by the test suite *)

Inductive exn : Type :=
  | ImproperVersionsList (msg : string)
  | UnknownVersion (msg : string)
  | FormatError (e : Py.format_error)  (* raised by [path.format(lang=...)] *)
  | AliasError                         (* raised by [AppVersion.get_version_alias] *)
  | TypeError (msg : string)
  | AttributeError (msg : string)
  | UnboundLocalError (name : string)
  | RequestException (code : nat).     (* raised by the [requests] library *)

(** ** [application_versions.AppVersion] *)

(** Modelled from the spec: the class [AppVersion] of [application_versions.py]
    is not part of the sources.  Its attributes are the ones the spec lists
    and the constructor of [AppURLBuilder] reads. *)
Record AppVersion : Type := {
  app_id : string;
  module : string;
  version : string;
  http_url : string;
  https_url : string;
  is_default_for_module : bool;
  is_default_module : bool
}.

(** Modelled from the spec: the helper [AppVersion.get_version_alias] is not
    part of the sources.  The full key "<version>.<module>.<app>", built by
    [get_version_alias(app_id, module, version)]. *)
Definition full_alias (app m v : string) : string := v +:+ "." +:+ m +:+ "." +:+ app.

(** Modelled from the spec: the module-default key "<module>.<app>", built by
    [get_version_alias(app_id, module)]. *)
Definition module_default_alias (app m : string) : string := m +:+ "." +:+ app.

(** Modelled from the spec: the app-default key "<app>", built by
    [get_version_alias(app_id)]. *)
Definition app_default_alias (app : string) : string := app.

(** Modelled from the spec: the attribute [full_name] of an [AppVersion] is
    its full key. *)
Definition full_name (v : AppVersion) : string :=
  full_alias (app_id v) (module v) (version v).

(** ** Values passed to and returned by the [requests] library *)

Inductive pyval : Type :=
  | PyNone
  | PyBool (b : bool)
  | PyInt (n : Z)
  | PyStr (s : string)
  | PyDict (items : list (string * string))
  | PyObject (id : nat) (truth : bool).

(** Truth value of an object, as [x or y] and [if x] test it. *)
Definition py_truth (x : pyval) : bool :=
  match x with
  | PyNone => false
  | PyBool b => b
  | PyInt n => negb (n =? 0)%Z
  | PyStr s => negb (String.eqb s "")
  | PyDict items => match items with [] => false | _ => true end
  | PyObject _ truth => truth
  end.

Definition py_or (x y : pyval) : pyval := if py_truth x then x else y.

(** [x < 1] and [x > 1] under the ordering of Python 2: [None] is below every
    number, every other object is above every number. *)
Definition py_lt_one (x : pyval) : bool :=
  match x with
  | PyNone => true
  | PyBool b => negb b
  | PyInt n => (n <? 1)%Z
  | _ => false
  end.

Definition py_gt_one (x : pyval) : bool :=
  match x with
  | PyNone => false
  | PyBool _ => false
  | PyInt n => (1 <? n)%Z
  | _ => true
  end.

Record PreparedRequest : Type := {
  prepared_headers : pyval;
  prepared_body : pyval
}.

Record Response : Type := {
  request : PreparedRequest;
  status_code : Z;
  headers : pyval;
  content : pyval
}.

(** ** The task queue service and the response of a [webapp2] handler *)

Inductive taskqueue_exn : Type :=
  | UnknownQueueError
  | OtherTaskqueueError (name : string).

Inductive Task : Type :=
  | TaskUrl (url : string)
  | TaskPayload (payload : string).

Record Results : Type := {
  queues : list string;
  exists_ : list bool
}.

Record HandlerResponse : Type := {
  status : Z;
  out : list string
}.

Definition DEFAULT_PUSH_QUEUE : string := "default".
Definition PULL_QUEUE_NAME : string := "hawkeyepython-PullQueue-0".

(** ** The environment of the program

    What the program takes from outside its sources and the development
    leaves open; every property below holds for every environment. *)

Class Environment : Type := {
  (** What [str.format] does with a field that names [lang] and then goes on
      with an attribute, an index, [!r] or a format specification. *)
  format_extended : string → string → option ascii → string → Py.format_result;
  (** The spec is silent on [get_version_alias(app_id, None, version)]: the
      key the helper builds there, or [None] when it raises. *)
  version_only_alias : string → string → option string;
  (** The network the [requests] library talks to. *)
  Net : Type;
  (** [requests.request(method, url, **kwargs)]: a response or an exception. *)
  requests_request :
    string → string → gmap string pyval → Net → (exn + Response) * Net;
  (** [str(x)] as [format] applies it to a value. *)
  py_str : pyval → string;
  (** [json.dumps(x)], which raises on a value that is not serializable. *)
  json_dumps : pyval → exn + string;
  (** The state of the task queue service. *)
  Platform : Type;
  (** [taskqueue.Queue(queue).add(task)]: [None] when the task is enqueued,
      otherwise the exception the service raises. *)
  queue_add : string → Task → Platform → option taskqueue_exn * Platform;
  (** [json.dumps(results)] for the dictionary of the handler. *)
  dumps_results : Results → string
}.

Section Hawkeye.

Context `{env : Environment}.

(** Modelled from the spec: [AppVersion.get_version_alias(app_id, module=None,
    version=None)] is not part of the sources.  The full key when both module
    and version are given, the module-default key when only the module is
    given, the app-default key when neither is given. *)
Definition get_version_alias (app : string) (m v : option string) : option string :=
  match m, v with
  | Some m, Some v => Some (full_alias app m v)
  | Some m, None => Some (module_default_alias app m)
  | None, None => Some (app_default_alias app)
  | None, Some v => version_only_alias app v
  end.

(** ** [AppURLBuilder] *)

Record AppURLBuilder : Type := {
  language : string;
  _versions_dict : gmap string AppVersion
}.

(** [{key(x): x for x in l}]: a later element replaces an earlier one with the
    same key. *)
Definition dict_comprehension (key : AppVersion → string) (l : list AppVersion)
    : gmap string AppVersion :=
  foldl (λ d x, <[key x := x]> d) ∅ l.

(** [d.update(d')]: the entries of [d'] replace those of [d]. *)
Definition dict_update (d d' : gmap string AppVersion) : gmap string AppVersion :=
  d' ∪ d.

Definition modules_of (app_versions : list AppVersion) : gset string :=
  list_to_set (module <$> app_versions).

Definition module_default_versions_of (app_versions : list AppVersion)
    : list AppVersion :=
  filter (λ v, is_default_for_module v = true) app_versions.

Definition app_default_versions_of (app_versions : list AppVersion)
    : list AppVersion :=
  filter (λ v, is_default_module v = true) (module_default_versions_of app_versions).

(** The three steps that fill [self._versions_dict]; the helper calls
    [get_version_alias(v.app_id, v.module)] and [get_version_alias(v.app_id)]
    are the module-default and the app-default key. *)
Definition versions_dict_of (app_versions : list AppVersion)
    : gmap string AppVersion :=
  let d := dict_comprehension full_name app_versions in
  let d := dict_update d
    (dict_comprehension (λ v, module_default_alias (app_id v) (module v))
       (module_default_versions_of app_versions)) in
  dict_update d
    (dict_comprehension (λ v, app_default_alias (app_id v))
       (app_default_versions_of app_versions)).

(** [AppURLBuilder.__init__]. *)
Definition AppURLBuilder_init (app_versions : list AppVersion) (lang : string)
    : exn + AppURLBuilder :=
  let modules := modules_of app_versions in
  let module_default_versions := module_default_versions_of app_versions in
  if decide (size modules ≠ length module_default_versions) then
    inl (ImproperVersionsList "Some of modules doesn't have default version")
  else
    inr {| language := lang; _versions_dict := versions_dict_of app_versions |}.

(** The keys of the mapping as [sorted(self._versions_dict)] lists them. *)
Definition known_versions (self : AppURLBuilder) : list string :=
  Py.sorted (map_to_list (_versions_dict self)).*1.

Definition unknown_version_message (v m : option string) (known : list string)
    : string :=
  "Unknown version '" +:+ Py.str_of_optional v +:+ "' for module '" +:+
  Py.str_of_optional m +:+ "'. Available versions are:" +:+ Py.nl +:+ "  " +:+
  Py.join (Py.nl +:+ "  ") known.

(** The resolution step of [build_url] (lines 254 to 263): the spec's
    [resolve(app_id, module, version)]. *)
Definition resolve (self : AppURLBuilder) (app : string) (m v : option string)
    : exn + AppVersion :=
  match get_version_alias app m v with
  | None => inl AliasError
  | Some version_full_name =>
      match _versions_dict self !! version_full_name with
      | None =>
          inl (UnknownVersion (unknown_version_message v m (known_versions self)))
      | Some app_version => inr app_version
      end
  end.

(** [AppURLBuilder.build_url]. *)
Definition AppURLBuilder_build_url (self : AppURLBuilder) (app path : string)
    (m v : option string) (https : bool) : exn + string :=
  match Py.format_lang format_extended (language self) path with
  | inl e => inl (FormatError e)
  | inr path =>
      match resolve self app m v with
      | inl e => inl e
      | inr app_version =>
          let base_url :=
            if https then https_url app_version else http_url app_version in
          inr (Py.rstrip_slash base_url +:+ "/" +:+ Py.lstrip_slash path)
      end
  end.

(** ** [Application] *)

Record World : Type := {
  net : Net;
  log : list string  (* the messages given to [logger.info], oldest first *)
}.

Definition IO (A : Type) : Type := World → (exn + A) * World.

Record Application : Type := {
  _app_id : string;
  _url_builder : AppURLBuilder;
  _verify_certificate : bool
}.

Definition _put_kwargs_defaults (self : Application) (kwargs : gmap string pyval)
    : gmap string pyval :=
  match kwargs !! "verify" with
  | None => <["verify" := PyBool (_verify_certificate self)]> kwargs
  | Some _ => kwargs
  end.

(** [Application.build_url]. *)
Definition Application_build_url (self : Application) (path : string)
    (m v : option string) (https : bool) : exn + string :=
  AppURLBuilder_build_url (_url_builder self) (_app_id self) path m v https.

Definition logger_info (msg : string) : IO unit :=
  λ w, (inr (), {| net := net w; log := log w ++ [msg] |}).

(** [headers.iteritems()] after [headers = headers or {}]. *)
Definition iteritems (x : pyval) : exn + list (string * string) :=
  match py_or x (PyDict []) with
  | PyDict items => inr items
  | _ => inl (AttributeError "iteritems")
  end.

Definition formatted_headers (items : list (string * string)) : string :=
  Py.join Py.nl ((λ '(name, value), name +:+ ": " +:+ value) <$> items).

(** [Application._log_request]. *)
Definition _log_request (method url : string) (hdrs body verbosity : pyval)
    : IO unit :=
  if py_lt_one verbosity then λ w, (inr (), w)
  else
    match iteritems hdrs with
    | inl e => λ w, (inl e, w)
    | inr items =>
        let body := py_or body (PyStr "") in
        logger_info
          ("Sending request:" +:+ Py.nl +:+ Py.upper method +:+ " " +:+ url +:+
           Py.nl +:+ formatted_headers items +:+ Py.nl +:+ Py.nl +:+ py_str body)
    end.

(** [Application._log_response]. *)
Definition _log_response (status : Z) (hdrs body verbosity : pyval) : IO unit :=
  if py_lt_one verbosity then λ w, (inr (), w)
  else
    match iteritems hdrs with
    | inl e => λ w, (inl e, w)
    | inr items =>
        let body :=
          if py_truth body && py_gt_one verbosity then body else PyStr "" in
        logger_info
          ("Received response: " +:+ py_str (PyInt status) +:+ Py.nl +:+
           formatted_headers items +:+ Py.nl +:+ Py.nl +:+ py_str body)
    end.

(** The body the [except] branch of [logged_request] recovers from [kwargs];
    the test [elif "files"] is always true. *)
Definition recovered_body (kwargs : gmap string pyval) : exn + pyval :=
  match kwargs !! "data" with
  | Some data => inr data
  | None =>
      match kwargs !! "json" with
      | Some j =>
          match json_dumps j with
          | inl e => inl e
          | inr text => inr (PyStr text)
          end
      | None => inr (PyStr "LOGGING STUB: Files are here")
      end
  end.

(** [Application.logged_request]. *)
Definition logged_request (self : Application) (method path : string)
    (m v : option string) (https : bool) (verbosity : pyval)
    (kwargs : gmap string pyval) : IO Response :=
  λ w,
  match Application_build_url self path m v https with
  | inl e => (inl e, w)
  | inr url =>
      let kwargs := _put_kwargs_defaults self kwargs in
      match requests_request method url kwargs (net w) with
      | (inr response, n) =>
          let w := {| net := n; log := log w |} in
          (* finally *)
          match _log_request method url (prepared_headers (request response))
                  (prepared_body (request response)) verbosity w with
          | (inl e, w) => (inl e, w)
          | (inr _, w) =>
              match _log_response (status_code response) (headers response)
                      (content response) verbosity w with
              | (inl e, w) => (inl e, w)
              | (inr _, w) => (inr response, w)
              end
          end
      | (inl e, n) =>
          let w := {| net := n; log := log w |} in
          let request_headers := default PyNone (kwargs !! "headers") in
          match recovered_body kwargs with
          | inl _ =>
              (* finally, with [request_body] never assigned *)
              (inl (UnboundLocalError "request_body"), w)
          | inr request_body =>
              (* raise, then finally *)
              match _log_request method url request_headers request_body
                      verbosity w with
              | (inl e', w) => (inl e', w)
              | (inr _, w) => (inl e, w)
              end
          end
      end
  end.

(** The call [self.logged_request(method, path, module, version, https,
    **kwargs)] made by the public methods: a key [verbosity] of [kwargs] binds
    the parameter of that name, a key [method] or [self] collides with a
    positional argument.  The value of the call is dropped and [None] is
    returned. *)
Definition public_request (self : Application) (method path : string)
    (m v : option string) (https : bool) (kwargs : gmap string pyval)
    : IO pyval :=
  λ w,
  if decide (is_Some (kwargs !! "method") ∨ is_Some (kwargs !! "self")) then
    (inl (TypeError "logged_request() got multiple values for keyword argument"), w)
  else
    let verbosity := default (PyInt 2) (kwargs !! "verbosity") in
    match logged_request self method path m v https verbosity
            (delete "verbosity" kwargs) w with
    | (inl e, w) => (inl e, w)
    | (inr _, w) => (inr PyNone, w)
    end.

(** [Application.get], [post], [put] and [delete]. *)
Definition Application_get (self : Application) (path : string)
    (m v : option string) (https : bool) (kwargs : gmap string pyval)
    : IO pyval :=
  public_request self "get" path m v https kwargs.

Definition Application_post (self : Application) (path : string)
    (m v : option string) (https : bool) (kwargs : gmap string pyval)
    : IO pyval :=
  public_request self "post" path m v https kwargs.

Definition Application_put (self : Application) (path : string)
    (m v : option string) (https : bool) (kwargs : gmap string pyval)
    : IO pyval :=
  public_request self "put" path m v https kwargs.

Definition Application_delete (self : Application) (path : string)
    (m v : option string) (https : bool) (kwargs : gmap string pyval)
    : IO pyval :=
  public_request self "delete" path m v https kwargs.

(** ** [QueueHandler] of [python27-app/taskqueue.py] *)

Record HandlerState : Type := {
  results : Results;
  response : HandlerResponse;
  platform : Platform
}.

Definition set_status (code : Z) (r : HandlerResponse) : HandlerResponse :=
  {| status := code; out := out r |}.

Definition write (text : string) (r : HandlerResponse) : HandlerResponse :=
  {| status := status r; out := out r ++ [text] |}.

(** One of the three blocks of [QueueHandler.get]: the queue name is recorded,
    a task is added, and only [UnknownQueueError] is handled. *)
Definition probe_queue (queue : string) (task : Task) (s : HandlerState)
    : option taskqueue_exn * HandlerState :=
  let res := {| queues := queues (results s) ++ [queue];
                exists_ := exists_ (results s) |} in
  match queue_add queue task (platform s) with
  | (None, p) =>
      (None,
       {| results := {| queues := queues res; exists_ := exists_ res ++ [true] |};
          response := response s;
          platform := p |})
  | (Some UnknownQueueError, p) =>
      (None,
       {| results := {| queues := queues res; exists_ := exists_ res ++ [false] |};
          response := set_status 404 (response s);
          platform := p |})
  | (Some e, p) =>
      (Some e, {| results := res; response := response s; platform := p |})
  end.

(** [QueueHandler.get]. *)
Definition QueueHandler_get (resp : HandlerResponse) (p : Platform)
    : option taskqueue_exn * HandlerState :=
  let s := {| results := {| queues := []; exists_ := [] |};
              response := set_status 200 resp;
              platform := p |} in
  match probe_queue "default" (TaskUrl "/python/taskqueue/clean_up") s with
  | (Some e, s) => (Some e, s)
  | (None, s) =>
      match probe_queue DEFAULT_PUSH_QUEUE (TaskUrl "/python/taskqueue/clean_up") s with
      | (Some e, s) => (Some e, s)
      | (None, s) =>
          match probe_queue PULL_QUEUE_NAME (TaskPayload "this is a fake payload") s with
          | (Some e, s) => (Some e, s)
          | (None, s) =>
              (None,
               {| results := results s;
                  response := write (dumps_results (results s)) (response s);
                  platform := platform s |})
          end
      end
  end.

End Hawkeye.

(** ** The datastore handlers of [python27-app/taskqueue.py] *)

Definition UPDATED_BY_TXN : string := "TXN_UPDATE".

(** The datastore, as far as the handlers use it for the kind [TaskEntity],
    whose only property is [value]. *)
Class Datastore : Type := {
  Store : Type;
  (** [TaskEntity.get_by_key_name(key)]: the value of the entity found, or
      [None]. *)
  get_by_key_name : string → Store → option string;
  (** [put()] of the [TaskEntity] with this key name and value. *)
  put : string → string → Store → Store;
  (** [TaskEntity.all().fetch(n)]: the key names of the entities fetched. *)
  fetch : nat → Store → list string;
  (** [db.delete(entities)]. *)
  db_delete : list string → Store → Store;
  (** [json.dumps({'value': value})]. *)
  dumps_value : option string → string
}.

Section DatastoreHandlers.

Context `{ds : Datastore}.




(** [CleanUpTaskEntities.post].  [fuel] bounds the number of passes of the
    [while True] loop: the result is [None] when the loop has not ended by
    then.  [sleeps] counts the calls of [time.sleep]. *)
Fixpoint CleanUpTaskEntities_post (fuel : nat) (resp : HandlerResponse)
    (s : Store) (sleeps : nat) : option (HandlerResponse * Store * nat) :=
  match fuel with
  | O => None
  | S fuel' =>
      let batch_size := 200 in
      let entity_batch := fetch batch_size s in
      match entity_batch with
      | [] => Some (set_status 200 resp, s, sleeps)
      | _ =>
          let entities_fetched := length entity_batch in
          let s := db_delete entity_batch s in
          let sleeps := S sleeps in
          if decide (entities_fetched < batch_size)
          then Some (set_status 200 resp, s, sleeps)
          else CleanUpTaskEntities_post fuel' resp s sleeps
      end
  end.

End DatastoreHandlers.

(** ** Notions of the specification *)

#[global] Instance AppVersion_eq_dec : EqDecision AppVersion.
Proof. solve_decision. Defined.

(** The number of distinct module names in a version list. *)
Definition distinct_modules (vs : list AppVersion) : nat :=
  length (remove_dups (module <$> vs)).

(** The versions flagged default-for-module of one module of one
    application. *)
Definition default_versions_for (app m : string) (vs : list AppVersion)
    : list AppVersion :=
  filter (λ v, app_id v = app ∧ module v = m) (module_default_versions_of vs).

(** Every module of every application has exactly one version flagged
    default-for-module. *)
Definition one_default_per_module (vs : list AppVersion) : Prop :=
  Forall (λ v, length (default_versions_for (app_id v) (module v) vs) = 1) vs.

(** No module name is used by two applications. *)
Definition module_names_not_shared (vs : list AppVersion) : Prop :=
  Forall (λ v, Forall (λ w, module v = module w → app_id v = app_id w) vs) vs.

(** The entries written into the mapping, in the order the constructor
    writes them. *)
Definition alias_writes (vs : list AppVersion) : list (string * AppVersion) :=
  ((λ v, (full_name v, v)) <$> vs) ++
  ((λ v, (module_default_alias (app_id v) (module v), v)) <$>
     module_default_versions_of vs) ++
  ((λ v, (app_default_alias (app_id v), v)) <$> app_default_versions_of vs).

(** No key is written with two different versions. *)
Definition writes_agree (vs : list AppVersion) : Prop :=
  Forall (λ w1, Forall (λ w2, w1.1 = w2.1 → w1.2 = w2.2) (alias_writes vs))
    (alias_writes vs).

(** The flag [QueueHandler.get] records for the outcome of an enqueue. *)
Definition enqueued (outcome : option taskqueue_exn) : bool :=
  match outcome with
  | None => true
  | Some _ => false
  end.

(** An outcome the handler handles: the task is enqueued or the queue is
    unknown. *)
Definition handled (outcome : option taskqueue_exn) : Prop :=
  outcome = None ∨ outcome = Some UnknownQueueError.

(** A datastore whose number of entities is [count]: a fetch of 200 returns
    as many entities as there are, up to 200, and deleting what was fetched
    removes that many. *)
Definition counts_entities `{ds : Datastore} (count : Store → nat) : Prop :=
  (∀ s, length (fetch 200 s) = Nat.min 200 (count s)) ∧
  (∀ s, count (db_delete (fetch 200 s) s) = count s - length (fetch 200 s)).


(** ** Sample data for the examples *)

Module Sample.

(** An environment driven by scripts: the network answers the requests with
    the responses of a list, one after the other, and the task queue service
    answers the enqueues with the outcomes of a list.  The extended forms of
    a format field and a version without a module are rejected. *)
#[local] Instance scripted : Environment := {|
  format_extended := λ _ _ _ _, inl (Py.FieldError 0);
  version_only_alias := λ _ _, None;
  Net := list (exn + Response);
  requests_request := λ _ _ _ n,
    match n with
    | r :: n' => (r, n')
    | [] => (inl (RequestException 0), [])
    end;
  py_str := λ x,
    match x with
    | PyStr s => s
    | PyInt _ => "200"
    | _ => "<object>"
    end;
  json_dumps := λ _, inl (TypeError "not JSON serializable");
  Platform := list (option taskqueue_exn);
  queue_add := λ _ _ p,
    match p with
    | o :: p' => (o, p')
    | [] => (None, [])
    end;
  dumps_results := λ r, Py.join "," (queues r)
|}.

(** The outcomes the task queue service will give, in order. *)
Definition script (outcomes : list (option taskqueue_exn)) : Platform := outcomes.

Definition app_version (app m v : string) (for_module default_module : bool)
    : AppVersion :=
  {| app_id := app; module := m; version := v;
     http_url := "http://10.0.0.1:8080/";
     https_url := "https://10.0.0.1:4380//";
     is_default_for_module := for_module;
     is_default_module := default_module |}.

(** One application with a default module and a second module, as in the
    comment that closes [AppURLBuilder.__init__]. *)
Definition versions : list AppVersion :=
  [ app_version "appX" "moduleA" "old-version" false false;
    app_version "appX" "moduleA" "default-version" true false;
    app_version "appX" "default" "main-version" true true ].

Definition builder : AppURLBuilder :=
  {| language := "py"; _versions_dict := versions_dict_of versions |}.

(** Two default versions for [moduleA] and none for [moduleB]. *)
Definition duplicate_default : list AppVersion :=
  [ app_version "appX" "moduleA" "v1" true false;
    app_version "appX" "moduleA" "v2" true false;
    app_version "appX" "moduleB" "v1" false false ].

(** The same version listed twice, flagged differently. *)
Definition listed_twice : list AppVersion :=
  [ app_version "appX" "moduleA" "v1" false false;
    app_version "appX" "moduleA" "v1" true false ].

(** Two applications that both have a module named "default". *)
Definition shared_module_name : list AppVersion :=
  [ app_version "appX" "default" "v1" true true;
    app_version "appY" "default" "v1" true true ].

(** Two applications and two modules whose names contain dots. *)
Definition dotted_names : list AppVersion :=
  [ app_version "a" "y.z" "x" true false;
    app_version "z.a" "y" "x" true false ].

(** An application "a" with a module "m" that is not its default module. *)
Definition dotted : list AppVersion :=
  [ app_version "a" "m" "v" true false ].

Definition application : Application :=
  {| _app_id := "appX"; _url_builder := builder; _verify_certificate := false |}.

Definition ok_response : Response :=
  {| request := {| prepared_headers := PyDict [("Accept", "*/*")];
                   prepared_body := PyNone |};
     status_code := 200;
     headers := PyDict [("Content-Type", "application/json")];
     content := PyStr "{}" |}.

(** A world in which the next request is answered by [ok_response]. *)
Definition world : World :=
  {| net := [inr ok_response]; log := [] |}.

(** A datastore that is a finite map from key names to values. *)
#[local] Instance map_store : Datastore := {|
  Store := gmap string string;
  get_by_key_name := λ key s, s !! key;
  put := λ key value s, <[key := value]> s;
  fetch := λ n s, take n (map_to_list s).*1;
  db_delete := λ keys s, foldr delete s keys;
  dumps_value := λ value,
    match value with
    | Some text => "{'value': '" +:+ text +:+ "'}"
    | None => "{'value': null}"
    end
|}.

(** The answers the network will give, in order. *)
Definition answers (l : list (exn + Response)) : Net := l.

(** A world in which every request fails. *)
Definition offline : World := {| net := answers []; log := [] |}.

(** The entities of a [map_store]. *)
Definition entities (m : gmap string string) : Store := m.

End Sample.

(** A closed decidable proposition, settled by evaluation. *)
Ltac by_evaluation := refine (bool_decide_unpack _ _); vm_compute; exact I.

(** ** Properties *)

Section Properties.

Context `{env : Environment}.

(** *** Strings *)

Lemma on_text_inr f r text :
  Py.on_text f r = inr text ↔ ∃ t, r = inr t ∧ text = f t.
Proof.
  destruct r as [e|t]; simpl; split.
  - discriminate.
  - intros (t & ? & _). discriminate.
  - intros [= <-]. eauto.
  - intros (t' & [= <-] & ->). reflexivity.
Qed.

Lemma string_app_cons c s t : String c s +:+ t = String c (s +:+ t).
Proof. reflexivity. Qed.

(** [lstrip] removes a run of slashes from the front and leaves a string
    that does not start with a slash. *)
Lemma lstrip_slash_spec s :
  ∃ n, s = Py.slashes n +:+ Py.lstrip_slash s ∧
       Py.startswith "/" (Py.lstrip_slash s) = false.
Proof.
  induction s as [|c s (n & Hs & Hstart)]; [by exists 0|].
  cbn [Py.lstrip_slash]. destruct (Ascii.eqb c "/") eqn:Hc.
  - apply Ascii.eqb_eq in Hc as ->. exists (S n). split; [|done].
    cbn [Py.slashes]. rewrite string_app_cons. by f_equal.
  - exists 0. split; [done|]. cbn [Py.startswith].
    by rewrite Ascii.eqb_sym, Hc.
Qed.

(** [rstrip] removes a run of slashes from the end and leaves a string that
    does not end with a slash. *)
Lemma rstrip_slash_spec s :
  ∃ n, s = Py.rstrip_slash s +:+ Py.slashes n ∧
       ∀ t, Py.rstrip_slash s ≠ t +:+ "/".
Proof.
  induction s as [|c s (n & Hs & Hend)].
  { exists 0. split; [done|]. by intros [|? ?]. }
  cbn [Py.rstrip_slash]. destruct (Py.rstrip_slash s) as [|a r] eqn:Hr.
  - destruct (Ascii.eqb c "/") eqn:Hc.
    + apply Ascii.eqb_eq in Hc as ->. exists (S n). split.
      * rewrite Hs at 1. reflexivity.
      * by intros [|? ?].
    + exists n. split.
      * rewrite Hs at 1. reflexivity.
      * intros [|b [|? ?]]; [|done..].
        change ("" +:+ "/") with (String "/" ""). intros [= ->].
        by rewrite Ascii.eqb_refl in Hc.
  - exists n. split.
    + rewrite Hs at 1. reflexivity.
    + intros [|b t]; [done|]. rewrite string_app_cons. intros [= -> Ht].
      by apply (Hend t).
Qed.

Lemma startswith_cons a p s :
  Py.startswith (String a p) s = true →
  ∃ s', s = String a s' ∧ Py.startswith p s' = true.
Proof.
  destruct s as [|b s']; [discriminate|].
  cbn [Py.startswith]. intros [Hab Hp]%andb_prop.
  apply Ascii.eqb_eq in Hab as ->. eauto.
Qed.

Lemma startswith_lang_inv s :
  Py.startswith "{lang}" s = true → ∃ rest, s = Py.placeholder rest.
Proof.
  intros H.
  do 6 (apply startswith_cons in H as (? & -> & H)).
  unfold Py.placeholder. eauto.
Qed.

Lemma markup_placeholder language rest :
  Py.markup (Py.render_lang_field format_extended language) Py.Literal
    (Py.placeholder rest) =
  Py.on_text (String.app language)
    (Py.markup (Py.render_lang_field format_extended language) Py.Literal rest).
Proof. reflexivity. Qed.

Lemma replace_lang_placeholder language rest :
  Py.replace_lang_from 0 language (Py.placeholder rest) =
  language +:+ Py.replace_lang_from 0 language rest.
Proof. reflexivity. Qed.

Lemma only_lang_placeholders_placeholder rest :
  Py.only_lang_placeholders_from 0 (Py.placeholder rest) =
  Py.only_lang_placeholders_from 0 rest.
Proof. reflexivity. Qed.

Lemma markup_literal_char render c s :
  Ascii.eqb c "{" || Ascii.eqb c "}" = false →
  Py.markup render Py.Literal (String c s) =
  Py.on_text (String c) (Py.markup render Py.Literal s).
Proof.
  intros H. apply orb_false_elim in H as [H1 H2].
  simpl. rewrite H1, H2. reflexivity.
Qed.

(** On a path whose braces all belong to placeholders, [format] is the
    replacement of the placeholder. *)
Lemma format_lang_replace language path :
  Py.only_lang_placeholders path = true →
  Py.format_lang format_extended language path =
  inr (Py.replace_lang language path).
Proof.
  unfold Py.only_lang_placeholders, Py.format_lang, Py.replace_lang.
  remember (String.length path) as n eqn:Hn.
  assert (Hle : String.length path ≤ n) by lia. clear Hn.
  revert path Hle. induction n as [|n IH]; intros [|c s] Hle Hok;
    try reflexivity; simpl in Hle; [lia|].
  destruct (Py.startswith "{lang}" (String c s)) eqn:Hp.
  - destruct (startswith_lang_inv _ Hp) as [rest Hs].
    rewrite Hs in Hok |- *.
    rewrite markup_placeholder, replace_lang_placeholder.
    rewrite only_lang_placeholders_placeholder in Hok.
    rewrite IH; [reflexivity| |exact Hok].
    assert (String.length (String c s) = 6 + String.length rest) as Hlen
      by (rewrite Hs; reflexivity).
    simpl in Hlen. lia.
  - assert (Hok' : negb (Ascii.eqb c "{" || Ascii.eqb c "}")
                   && Py.only_lang_placeholders_from 0 s = true).
    { revert Hok. unfold Py.only_lang_placeholders_from at 1.
      fold Py.only_lang_placeholders_from. rewrite Hp. auto. }
    apply andb_prop in Hok' as [Hc Hs]. apply negb_true_iff in Hc.
    rewrite markup_literal_char by exact Hc.
    rewrite IH by (assumption || lia).
    unfold Py.replace_lang_from at 2. fold Py.replace_lang_from.
    rewrite Hp. reflexivity.
Qed.

(** A format string that is formatted without error is lexically well formed
    and each of its fields was rendered. *)
Lemma markup_inr_scan render s : ∀ st text,
  Py.markup render st s = inr text →
  (Py.scan_fields st s).2 = None ∧
  Forall (λ body, ∃ t, render body = inr t) (Py.scan_fields st s).1.
Proof.
  induction s as [|c s IH]; intros st text; simpl.
  - destruct (Py.markup_end st); [discriminate|]. auto.
  - destruct (Py.markup_step st c) as [st'|a|body|e]; simpl.
    + apply IH.
    + intros (t & Ht & _)%on_text_inr. eapply IH, Ht.
    + destruct (render body) as [e|t] eqn:Hr; [discriminate|].
      intros (t' & Ht' & _)%on_text_inr.
      destruct (IH _ _ Ht') as [? ?]. split; [assumption|].
      constructor; eauto.
    + discriminate.
Qed.

Lemma parse_field_argument body name conv spec :
  Py.parse_field body = inr (name, conv, spec) →
  Py.field_argument body = (Py.field_name_split name).1.
Proof.
  revert name conv spec.
  induction body as [|c rest IH]; intros name conv spec; simpl.
  - intros [= <- _ _]. reflexivity.
  - destruct (Ascii.eqb c ":") eqn:Hcolon; simpl.
    { intros [= <- _ _]. reflexivity. }
    destruct (Ascii.eqb c "!") eqn:Hbang; simpl.
    { destruct rest as [|conv' [|c' spec']]; [discriminate|..].
      - intros [= <- _ _]. reflexivity.
      - destruct (Ascii.eqb c' ":"); [|discriminate].
        intros [= <- _ _]. reflexivity. }
    destruct (Py.parse_field rest) as [e|[[name' conv'] spec']]; [discriminate|].
    intros [= <- _ _]. simpl.
    destruct (Ascii.eqb c "." || Ascii.eqb c "["); simpl; [reflexivity|].
    f_equal. eapply IH. reflexivity.
Qed.

(** Only a field whose argument is [lang] is rendered. *)
Lemma render_lang_field_argument language body text :
  Py.render_lang_field format_extended language body = inr text →
  Py.field_argument body = "lang".
Proof.
  unfold Py.render_lang_field.
  destruct (Py.parse_field body) as [e|[[name conv] spec]] eqn:Hp; [discriminate|].
  rewrite (parse_field_argument _ _ _ _ Hp).
  destruct (Py.field_name_split name) as [first rest]. simpl.
  destruct (String.eqb first "lang") eqn:Hfirst; simpl; [|discriminate].
  intros _. by apply String.eqb_eq.
Qed.

Lemma format_lang_inr_fields language path text :
  Py.format_lang format_extended language path = inr text →
  (Py.scan_fields Py.Literal path).2 = None ∧
  Forall (λ body, Py.field_argument body = "lang")
    (Py.scan_fields Py.Literal path).1.
Proof.
  intros H. apply markup_inr_scan in H as [Hlex Hfields]. split; [assumption|].
  eapply Forall_impl; [exact Hfields|].
  intros body [t Ht]. eapply render_lang_field_argument, Ht.
Qed.

(** *** The order of [sorted] *)

Lemma sorted_Sorted l : Sorted String.le (Py.sorted l).
Proof. apply (Sorted_merge_sort String.le). Qed.

Lemma sorted_Permutation l : Py.sorted l ≡ₚ l.
Proof. apply (merge_sort_Permutation String.le). Qed.

Lemma known_versions_Sorted self : Sorted String.le (known_versions self).
Proof. apply sorted_Sorted. Qed.

Lemma known_versions_NoDup self : NoDup (known_versions self).
Proof.
  unfold known_versions. rewrite sorted_Permutation.
  apply NoDup_fst_map_to_list.
Qed.

Lemma elem_of_known_versions self k :
  k ∈ known_versions self ↔ is_Some (_versions_dict self !! k).
Proof.
  unfold known_versions. rewrite sorted_Permutation, list_elem_of_fmap. split.
  - intros ([k' x] & -> & Hx%elem_of_map_to_list). eauto.
  - intros [x Hx]. exists (k, x). split; [reflexivity|].
    by apply elem_of_map_to_list.
Qed.

(** *** [build_url] *)

Lemma build_url_format_error self app path m v https e :
  Py.format_lang format_extended (language self) path = inl e →
  AppURLBuilder_build_url self app path m v https = inl (FormatError e).
Proof. unfold AppURLBuilder_build_url. by intros ->. Qed.

Lemma build_url_formatted self app path m v https text :
  Py.format_lang format_extended (language self) path = inr text →
  AppURLBuilder_build_url self app path m v https =
  match resolve self app m v with
  | inl e => inl e
  | inr app_version =>
      inr (Py.rstrip_slash
             (if https then https_url app_version else http_url app_version)
           +:+ "/" +:+ Py.lstrip_slash text)
  end.
Proof. unfold AppURLBuilder_build_url. by intros ->. Qed.

Lemma resolve_known self app m v key app_version :
  get_version_alias app m v = Some key →
  _versions_dict self !! key = Some app_version →
  resolve self app m v = inr app_version.
Proof. unfold resolve. by intros -> ->. Qed.

Lemma resolve_unknown self app m v key :
  get_version_alias app m v = Some key →
  _versions_dict self !! key = None →
  resolve self app m v =
  inl (UnknownVersion (unknown_version_message v m (known_versions self))).
Proof. unfold resolve. by intros -> ->. Qed.

(** C1, as amended: for a version whose alias key is in the mapping and a
    path in which braces occur only as the placeholder "{lang}", [build_url]
    returns the base URL (https or http) without its trailing slashes, a
    slash, and the path with the placeholder replaced by the language and
    its leading slashes removed; with the path "/{lang}/x" and the language
    "py" the result ends in "/py/x". *)
Theorem build_url_known_version (self : AppURLBuilder) (app path : string)
    (m v : option string) (https : bool) (key : string)
    (app_version : AppVersion) :
  get_version_alias app m v = Some key →
  _versions_dict self !! key = Some app_version →
  Py.only_lang_placeholders path = true →
  let base := if https then https_url app_version else http_url app_version in
  AppURLBuilder_build_url self app path m v https =
    inr (Py.rstrip_slash base +:+ "/" +:+
         Py.lstrip_slash (Py.replace_lang (language self) path)) ∧
  (language self = "py" →
   AppURLBuilder_build_url self app "/{lang}/x" m v https =
     inr (Py.rstrip_slash base +:+ "/py/x")).
Proof.
  intros Hkey Hdict Hpath base. split.
  - rewrite (build_url_formatted _ _ _ _ _ _ _
               (format_lang_replace (language self) path Hpath)).
    by rewrite (resolve_known _ _ _ _ _ _ Hkey Hdict).
  - intros Hlang.
    rewrite (build_url_formatted _ _ _ _ _ _ ("/py/x")).
    + by rewrite (resolve_known _ _ _ _ _ _ Hkey Hdict).
    + rewrite Hlang. reflexivity.
Qed.

(** C5, as amended: for a version whose lookup key is not in the mapping and
    a path on which the language substitution succeeds, [build_url] raises
    [UnknownVersion], and the message lists the keys of the mapping, each
    once, in lexicographic order. *)
Theorem build_url_unknown_version (self : AppURLBuilder) (app path : string)
    (m v : option string) (https : bool) (key text : string) :
  get_version_alias app m v = Some key →
  _versions_dict self !! key = None →
  Py.format_lang format_extended (language self) path = inr text →
  AppURLBuilder_build_url self app path m v https =
    inl (UnknownVersion
           ("Unknown version '" +:+ Py.str_of_optional v +:+ "' for module '" +:+
            Py.str_of_optional m +:+ "'. Available versions are:" +:+ Py.nl +:+
            "  " +:+ Py.join (Py.nl +:+ "  ") (known_versions self))) ∧
  Sorted String.le (known_versions self) ∧
  NoDup (known_versions self) ∧
  (∀ k, k ∈ known_versions self ↔ is_Some (_versions_dict self !! k)).
Proof.
  intros Hkey Hdict Hpath. split; [|split; [|split]].
  - rewrite (build_url_formatted _ _ _ _ _ _ _ Hpath).
    by rewrite (resolve_unknown _ _ _ _ _ Hkey Hdict).
  - apply known_versions_Sorted.
  - apply known_versions_NoDup.
  - apply elem_of_known_versions.
Qed.

(** C10, as amended: the language substitution comes before the lookup, so
    for a path with an unbalanced brace or with a replacement field whose
    argument is not [lang], [build_url] raises the error of [format],
    whether or not the version is known. *)
Theorem build_url_malformed_path (self : AppURLBuilder) (app path : string)
    (m v : option string) (https : bool) :
  (Py.scan_fields Py.Literal path).2 ≠ None ∨
  Exists (λ body, Py.field_argument body ≠ "lang")
    (Py.scan_fields Py.Literal path).1 →
  ∃ e, Py.format_lang format_extended (language self) path = inl e ∧
       AppURLBuilder_build_url self app path m v https = inl (FormatError e).
Proof.
  intros Hbad.
  destruct (Py.format_lang format_extended (language self) path)
    as [e|text] eqn:Hfmt.
  - exists e. split; [reflexivity|]. by apply build_url_format_error.
  - exfalso. apply format_lang_inr_fields in Hfmt as [Hlex Hfields].
    destruct Hbad as [Hbad|Hbad]; [by apply Hbad|].
    apply Exists_exists in Hbad as (body & Hin & Hne).
    rewrite Forall_forall in Hfields. by apply Hne, Hfields.
Qed.

(** *** Dictionaries *)

Lemma dict_comprehension_snoc key l x :
  dict_comprehension key (l ++ [x]) = <[key x := x]> (dict_comprehension key l).
Proof. unfold dict_comprehension. by rewrite foldl_snoc. Qed.

(** An entry of a comprehension comes from an element with that key. *)
Lemma dict_comprehension_lookup_Some key l k x :
  dict_comprehension key l !! k = Some x → x ∈ l ∧ key x = k.
Proof.
  induction l as [|y l IH] using rev_ind.
  - unfold dict_comprehension. simpl. by rewrite lookup_empty.
  - rewrite dict_comprehension_snoc, lookup_insert.
    case_decide as Hk.
    + intros [= <-]. split; [set_solver|done].
    + intros [? ?]%IH. split; [set_solver|done].
Qed.

(** A key of some element is bound to an element with that key. *)
Lemma dict_comprehension_lookup_elem key l x :
  x ∈ l → ∃ y, dict_comprehension key l !! key x = Some y ∧ y ∈ l ∧ key y = key x.
Proof.
  induction l as [|z l IH] using rev_ind; [by intros ?%elem_of_nil|].
  rewrite dict_comprehension_snoc, lookup_insert.
  intros Hx. case_decide as Hk.
  - exists z. split_and!; [done|set_solver|done].
  - apply elem_of_app in Hx as [Hx|Hx%list_elem_of_singleton]; [|by subst].
    destruct (IH Hx) as (y & ? & ? & ?). exists y. split_and!; [done|set_solver|done].
Qed.

Lemma dict_comprehension_lookup_None key l k :
  dict_comprehension key l !! k = None ↔ ∀ x, x ∈ l → key x ≠ k.
Proof.
  split.
  - intros Hnone x Hx Hk.
    destruct (dict_comprehension_lookup_elem key l x Hx) as (y & Hy & _).
    congruence.
  - intros Hl. destruct (dict_comprehension key l !! k) as [x|] eqn:Hx; [|done].
    apply dict_comprehension_lookup_Some in Hx as [? ?]. by destruct (Hl x).
Qed.

Lemma elem_of_alias_writes vs k x :
  (k, x) ∈ alias_writes vs ↔
  (x ∈ vs ∧ k = full_name x) ∨
  (x ∈ module_default_versions_of vs ∧
   k = module_default_alias (app_id x) (module x)) ∨
  (x ∈ app_default_versions_of vs ∧ k = app_default_alias (app_id x)).
Proof.
  unfold alias_writes. rewrite !elem_of_app, !list_elem_of_fmap.
  naive_solver.
Qed.

(** Every entry of the mapping is one of the writes. *)
Lemma versions_dict_lookup_Some vs k x :
  versions_dict_of vs !! k = Some x → (k, x) ∈ alias_writes vs.
Proof.
  unfold versions_dict_of, dict_update. rewrite elem_of_alias_writes.
  intros [H|[_ [H|[_ H]]%lookup_union_Some_raw]]%lookup_union_Some_raw;
    apply dict_comprehension_lookup_Some in H as [? <-]; auto.
Qed.

(** Every key that is written is bound, to one of the versions written
    under it. *)
Lemma versions_dict_lookup_write vs k x :
  (k, x) ∈ alias_writes vs →
  ∃ y, versions_dict_of vs !! k = Some y ∧ (k, y) ∈ alias_writes vs.
Proof.
  intros Hw.
  assert (is_Some (versions_dict_of vs !! k)) as [y Hy].
  { unfold versions_dict_of, dict_update.
    rewrite !lookup_union, !union_is_Some.
    apply elem_of_alias_writes in Hw as [[Hx ->]|[[Hx ->]|[Hx ->]]].
    - right. right.
      destruct (dict_comprehension_lookup_elem full_name _ _ Hx) as (y & -> & _).
      done.
    - right. left.
      destruct (dict_comprehension_lookup_elem
                  (λ v, module_default_alias (app_id v) (module v)) _ _ Hx)
        as (y & Hy & _).
      simpl in Hy. by rewrite Hy.
    - left.
      destruct (dict_comprehension_lookup_elem
                  (λ v, app_default_alias (app_id v)) _ _ Hx) as (y & Hy & _).
      simpl in Hy. by rewrite Hy. }
  exists y. split; [done|]. by apply versions_dict_lookup_Some.
Qed.

Lemma versions_dict_lookup_None vs k :
  versions_dict_of vs !! k = None ↔ ∀ x, (k, x) ∉ alias_writes vs.
Proof.
  split.
  - intros Hnone x Hx.
    destruct (versions_dict_lookup_write _ _ _ Hx) as (y & Hy & _). congruence.
  - intros Hw. destruct (versions_dict_of vs !! k) as [x|] eqn:Hx; [|done].
    apply versions_dict_lookup_Some in Hx. by destruct (Hw x).
Qed.

Lemma writes_agree_lookup vs k x :
  writes_agree vs → (k, x) ∈ alias_writes vs → versions_dict_of vs !! k = Some x.
Proof.
  intros Hagree Hx.
  destruct (versions_dict_lookup_write _ _ _ Hx) as (y & Hy & Hw).
  unfold writes_agree in Hagree. rewrite Forall_forall in Hagree.
  specialize (Hagree _ Hw). rewrite Forall_forall in Hagree.
  specialize (Hagree _ Hx eq_refl). simpl in Hagree. by subst.
Qed.

(** *** The constructor *)

Lemma size_modules_of vs : size (modules_of vs) = distinct_modules vs.
Proof.
  unfold modules_of, distinct_modules.
  rewrite <-(size_list_to_set (C:=gset string) (remove_dups (module <$> vs)))
    by apply NoDup_remove_dups.
  f_equal. apply set_eq. intros m.
  by rewrite !elem_of_list_to_set, elem_of_remove_dups.
Qed.

Lemma init_inr vs lang self :
  AppURLBuilder_init vs lang = inr self ↔
  distinct_modules vs = length (module_default_versions_of vs) ∧
  self = {| language := lang; _versions_dict := versions_dict_of vs |}.
Proof.
  unfold AppURLBuilder_init. rewrite size_modules_of.
  case_decide; naive_solver.
Qed.

(** C2: the constructor raises [ImproperVersionsList] exactly when the number
    of distinct module names differs from the number of versions flagged
    default-for-module; when the two are equal it returns the builder. *)
Theorem init_improper_iff_counts_differ (vs : list AppVersion) (lang : string) :
  ((∃ msg, AppURLBuilder_init vs lang = inl (ImproperVersionsList msg)) ↔
   distinct_modules vs ≠
   length (filter (λ v, is_default_for_module v = true) vs)) ∧
  (distinct_modules vs =
   length (filter (λ v, is_default_for_module v = true) vs) →
   ∃ self, AppURLBuilder_init vs lang = inr self ∧ language self = lang).
Proof.
  fold (module_default_versions_of vs).
  unfold AppURLBuilder_init. rewrite size_modules_of.
  case_decide as Hcount; split.
  - split; [done|]. eauto.
  - done.
  - split; [|done]. by intros [msg ?].
  - eauto.
Qed.

(** *** Keys with and without a dot *)

Lemma dotless_app_dot s t : Py.dotless (s +:+ "." +:+ t) = false.
Proof.
  induction s as [|c s IH]; [reflexivity|].
  rewrite string_app_cons. simpl. rewrite IH. apply andb_false_r.
Qed.

Lemma dotless_ne_full_alias app a m v :
  Py.dotless app = true → app ≠ full_alias a m v.
Proof.
  intros Hdot ->. unfold full_alias in Hdot.
  by rewrite dotless_app_dot in Hdot.
Qed.

Lemma dotless_ne_module_default_alias app a m :
  Py.dotless app = true → app ≠ module_default_alias a m.
Proof.
  intros Hdot ->. unfold module_default_alias in Hdot.
  by rewrite dotless_app_dot in Hdot.
Qed.

(** *** Resolution *)

Lemma elem_of_module_default_versions vs v :
  v ∈ module_default_versions_of vs ↔ v ∈ vs ∧ is_default_for_module v = true.
Proof. unfold module_default_versions_of. rewrite list_elem_of_filter. tauto. Qed.

Lemma elem_of_app_default_versions vs v :
  v ∈ app_default_versions_of vs ↔
  v ∈ vs ∧ is_default_for_module v = true ∧ is_default_module v = true.
Proof.
  unfold app_default_versions_of.
  rewrite list_elem_of_filter, elem_of_module_default_versions. tauto.
Qed.

(** The key "<app>" is bound to an application default of that application
    whenever there is one. *)
Lemma versions_dict_app_default vs d :
  d ∈ app_default_versions_of vs →
  ∃ y, versions_dict_of vs !! app_id d = Some y ∧
       y ∈ app_default_versions_of vs ∧ app_id y = app_id d.
Proof.
  intros Hd.
  destruct (dict_comprehension_lookup_elem
              (λ v, app_default_alias (app_id v)) _ _ Hd) as (y & Hy & Hin & Hk).
  exists y. split; [|done].
  unfold versions_dict_of, dict_update. by rewrite lookup_union_l'.
Qed.

(** C7, as amended: after construction, resolving with neither module nor
    version returns a version of the application that is flagged both
    default-for-module and default-module when the application has one (the
    one, when it is unique); when it has none and the application id contains
    no '.', [UnknownVersion] is raised. *)
Theorem resolve_app_default (vs : list AppVersion) (lang : string)
    (self : AppURLBuilder) (app : string) :
  AppURLBuilder_init vs lang = inr self →
  let is_app_default d :=
    d ∈ vs ∧ app_id d = app ∧
    is_default_for_module d = true ∧ is_default_module d = true in
  ((∃ d, is_app_default d) →
   ∃ d, resolve self app None None = inr d ∧ is_app_default d) ∧
  (∀ d, is_app_default d → (∀ d', is_app_default d' → d' = d) →
   resolve self app None None = inr d) ∧
  ((¬ ∃ d, is_app_default d) → Py.dotless app = true →
   resolve self app None None =
   inl (UnknownVersion (unknown_version_message None None (known_versions self)))).
Proof.
  intros [_ ->]%init_inr is_app_default.
  assert (Hsome : ∀ d, is_app_default d →
            ∃ y, resolve {| language := lang; _versions_dict := versions_dict_of vs |}
                   app None None = inr y ∧ is_app_default y).
  { intros d (Hin & <- & Hm & Ha).
    destruct (versions_dict_app_default vs d) as (y & Hy & Hyin & Hyapp).
    { apply elem_of_app_default_versions. done. }
    exists y. split.
    - by apply (resolve_known _ _ _ _ (app_id d)).
    - apply elem_of_app_default_versions in Hyin as (? & ? & ?). done. }
  split_and!.
  - intros [d Hd]. exact (Hsome d Hd).
  - intros d Hd Huniq. destruct (Hsome d Hd) as (y & Hy & Hyd).
    by rewrite <-(Huniq y Hyd).
  - intros Hnone Hdot. apply (resolve_unknown _ _ _ _ app); [done|]. simpl.
    apply versions_dict_lookup_None. intros x.
    rewrite elem_of_alias_writes, elem_of_app_default_versions.
    intros [[_ Hk]|[[_ Hk]|[(? & ? & ?) Hk]]].
    + by eapply dotless_ne_full_alias.
    + by eapply dotless_ne_module_default_alias.
    + apply Hnone. exists x. done.
Qed.

(** C6, as amended: when no key is written with two different versions, the
    mapping binds the full key of every version to that version, the
    module-default key of every version flagged default-for-module to that
    version, and the application id of every version flagged both
    default-for-module and default-module to that version; resolution looks
    up the full key when module and version are given, the module-default key
    when only the module is given and the application id when neither is. *)
Theorem alias_mapping_shapes (vs : list AppVersion) (lang : string)
    (self : AppURLBuilder) :
  AppURLBuilder_init vs lang = inr self →
  writes_agree vs →
  (∀ x, x ∈ vs →
     _versions_dict self !!
       (version x +:+ "." +:+ module x +:+ "." +:+ app_id x) = Some x) ∧
  (∀ x, x ∈ vs → is_default_for_module x = true →
     _versions_dict self !! (module x +:+ "." +:+ app_id x) = Some x) ∧
  (∀ x, x ∈ vs → is_default_for_module x = true → is_default_module x = true →
     _versions_dict self !! app_id x = Some x) ∧
  (∀ app m v x,
     (resolve self app (Some m) (Some v) = inr x ↔
      _versions_dict self !! (v +:+ "." +:+ m +:+ "." +:+ app) = Some x) ∧
     (resolve self app (Some m) None = inr x ↔
      _versions_dict self !! (m +:+ "." +:+ app) = Some x) ∧
     (resolve self app None None = inr x ↔
      _versions_dict self !! app = Some x)).
Proof.
  intros [_ ->]%init_inr Hagree. simpl. split_and!.
  - intros x Hx. apply writes_agree_lookup; [done|].
    apply elem_of_alias_writes. left. done.
  - intros x Hx Hm. apply writes_agree_lookup; [done|].
    apply elem_of_alias_writes. right. left.
    by rewrite elem_of_module_default_versions.
  - intros x Hx Hm Ha. apply writes_agree_lookup; [done|].
    apply elem_of_alias_writes. right. right.
    by rewrite elem_of_app_default_versions.
  - intros app m v x. unfold resolve, get_version_alias. simpl.
    unfold full_alias, module_default_alias, app_default_alias.
    split_and!; (destruct (versions_dict_of vs !! _); naive_solver).
Qed.

(** The condition of C6 is needed: if every write is found in the mapping,
    no key was written with two different versions. *)
Lemma writes_agree_necessary vs :
  (∀ k x, (k, x) ∈ alias_writes vs → versions_dict_of vs !! k = Some x) →
  writes_agree vs.
Proof.
  intros Hall. unfold writes_agree. rewrite Forall_forall. intros [k x] Hx.
  rewrite Forall_forall. intros [k' y] Hy. simpl. intros <-.
  apply Hall in Hx, Hy. congruence.
Qed.

(** *** Counting modules, defaults and keys *)

Lemma filter_ext_elem {A} (P Q : A → Prop) `{!∀ x, Decision (P x)}
    `{!∀ x, Decision (Q x)} (l : list A) :
  (∀ x, x ∈ l → P x ↔ Q x) → filter P l = filter Q l.
Proof.
  induction l as [|a l IH]; intros Hiff; [done|].
  assert (filter P l = filter Q l) as Hl by (apply IH; set_solver).
  destruct (decide (P a)) as [Ha|Ha].
  - rewrite !filter_cons_True; [by rewrite Hl| |done]. apply Hiff; [set_solver|done].
  - rewrite !filter_cons_False; [done| |done]. rewrite <-Hiff; [done|set_solver].
Qed.

(** When no value of [f] is taken by two elements of [l], the values of [f]
    on [l] are distinct. *)
Lemma NoDup_fmap_filter_le_1 {A} (f : A → string) (l : list A) :
  (∀ x, x ∈ l → length (filter (λ y, f y = f x) l) ≤ 1) → NoDup (f <$> l).
Proof.
  induction l as [|a l IH]; intros Hle; [constructor|].
  rewrite fmap_cons. apply NoDup_cons. split.
  - intros (y & Hfy & Hy)%list_elem_of_fmap.
    assert (Ha : a ∈ a :: l) by set_solver.
    specialize (Hle a Ha). rewrite filter_cons_True in Hle by done.
    simpl in Hle.
    assert (y ∈ filter (λ z, f z = f a) l) as Hyin
      by (apply list_elem_of_filter; done).
    destruct (filter (λ z, f z = f a) l); [by apply elem_of_nil in Hyin|].
    simpl in Hle. lia.
  - apply IH. intros x Hx.
    assert (Hx' : x ∈ a :: l) by set_solver.
    specialize (Hle x Hx'). rewrite filter_cons in Hle.
    destruct (decide (f a = f x)); simpl in Hle; lia.
Qed.

(** Distinct values of [f] stay distinct under [g] when [g] determines [f]. *)
Lemma NoDup_fmap_determined {A} (f g : A → string) (l : list A) :
  (∀ x y, x ∈ l → y ∈ l → g x = g y → f x = f y) →
  NoDup (f <$> l) → NoDup (g <$> l).
Proof.
  induction l as [|a l IH]; intros Hdet; [constructor|].
  rewrite !fmap_cons, !NoDup_cons. intros [Hnotin Hnodup]. split.
  - intros (y & Hgy & Hy)%list_elem_of_fmap. apply Hnotin.
    apply list_elem_of_fmap. exists y. split; [|done].
    apply Hdet; [set_solver|set_solver|done].
  - apply IH; [|done]. intros x y Hx Hy. apply Hdet; set_solver.
Qed.

Lemma default_versions_for_by_name vs d :
  module_names_not_shared vs →
  d ∈ vs →
  filter (λ y, module y = module d) (module_default_versions_of vs) =
  default_versions_for (app_id d) (module d) vs.
Proof.
  intros Hshared Hd. unfold default_versions_for.
  apply filter_ext_elem. intros y [Hy _]%elem_of_module_default_versions.
  split; [|tauto]. intros Hm. split; [|done].
  unfold module_names_not_shared in Hshared. rewrite Forall_forall in Hshared.
  specialize (Hshared y Hy). rewrite Forall_forall in Hshared.
  by apply Hshared.
Qed.

(** With one default version per module, the default versions and the module
    names correspond one to one. *)
Lemma module_default_versions_NoDup vs :
  module_names_not_shared vs → one_default_per_module vs →
  NoDup (module <$> module_default_versions_of vs).
Proof.
  intros Hshared Hone. apply NoDup_fmap_filter_le_1.
  intros d [Hd _]%elem_of_module_default_versions.
  rewrite default_versions_for_by_name by done.
  unfold one_default_per_module in Hone. rewrite Forall_forall in Hone.
  by rewrite (Hone d Hd).
Qed.

Lemma module_default_versions_cover vs m :
  one_default_per_module vs →
  m ∈ module <$> vs ↔ m ∈ module <$> module_default_versions_of vs.
Proof.
  intros Hone. rewrite !list_elem_of_fmap. split.
  - intros (v & -> & Hv).
    unfold one_default_per_module in Hone. rewrite Forall_forall in Hone.
    specialize (Hone v Hv).
    destruct (default_versions_for (app_id v) (module v) vs) as [|d ?] eqn:Hd;
      [done|].
    assert (d ∈ default_versions_for (app_id v) (module v) vs) as Hin
      by (rewrite Hd; set_solver).
    apply list_elem_of_filter in Hin as [[_ Hm] Hin]. eauto.
  - intros (d & -> & [Hd _]%elem_of_module_default_versions). eauto.
Qed.

Lemma one_default_per_module_counts vs :
  module_names_not_shared vs → one_default_per_module vs →
  distinct_modules vs = length (module_default_versions_of vs).
Proof.
  intros Hshared Hone. unfold distinct_modules.
  rewrite <-(length_fmap module (module_default_versions_of vs)).
  apply Permutation_length, NoDup_Permutation.
  - apply NoDup_remove_dups.
  - by apply module_default_versions_NoDup.
  - intros m. rewrite elem_of_remove_dups. by apply module_default_versions_cover.
Qed.

Lemma string_length_app s t :
  String.length (s +:+ t) = String.length s + String.length t.
Proof.
  induction s as [|c s IH]; [reflexivity|].
  rewrite string_app_cons. simpl. by rewrite IH.
Qed.

Lemma module_default_alias_shorter v :
  String.length (module_default_alias (app_id v) (module v)) <
  String.length (full_name v).
Proof.
  unfold full_name, full_alias, module_default_alias.
  rewrite !string_length_app. simpl. lia.
Qed.

Lemma longest_full_name vs :
  vs ≠ [] →
  ∃ v, v ∈ vs ∧
       ∀ w, w ∈ vs → String.length (full_name w) ≤ String.length (full_name v).
Proof.
  induction vs as [|a vs IH]; [done|]. intros _.
  destruct vs as [|b vs].
  - exists a. split; [set_solver|]. intros w ->%list_elem_of_singleton. done.
  - destruct IH as (v & Hv & Hmax); [done|].
    destruct (decide (String.length (full_name v) ≤ String.length (full_name a))).
    + exists a. split; [set_solver|].
      intros w [->|Hw]%elem_of_cons; [done|]. specialize (Hmax w Hw). lia.
    + exists v. split; [set_solver|].
      intros w [->|Hw]%elem_of_cons; [lia|]. by apply Hmax.
Qed.

(** A module name without a dot is recovered from the module-default key. *)
Lemma module_default_alias_inj a1 m1 a2 m2 :
  Py.dotless m1 = true → Py.dotless m2 = true →
  module_default_alias a1 m1 = module_default_alias a2 m2 → m1 = m2.
Proof.
  unfold module_default_alias. revert m2.
  induction m1 as [|c m1 IH]; intros [|c2 m2]; simpl; try done.
  - intros _ [Hc _]%andb_prop. rewrite string_app_cons.
    change ("" +:+ "." +:+ a1) with (String "." a1).
    intros [= <- _]. done.
  - intros [Hc _]%andb_prop _. rewrite string_app_cons.
    change ("" +:+ "." +:+ a2) with (String "." a2).
    intros [= -> _]. done.
  - intros [_ H1]%andb_prop [_ H2]%andb_prop. rewrite !string_app_cons.
    intros [= -> Heq]. f_equal. by apply IH.
Qed.

Lemma size_versions_dict_ge vs (keys : list string) :
  NoDup keys →
  (∀ k, k ∈ keys → is_Some (versions_dict_of vs !! k)) →
  length keys ≤ size (versions_dict_of vs).
Proof.
  intros Hnodup Hkeys.
  rewrite <-(length_map_to_list (versions_dict_of vs)),
    <-(length_fmap fst (map_to_list (versions_dict_of vs))).
  apply submseteq_length, NoDup_submseteq; [done|].
  intros k [x Hx]%Hkeys. apply list_elem_of_fmap. exists (k, x).
  split; [done|]. by apply elem_of_map_to_list.
Qed.

(** C3, as amended: for a non-empty version list in which no module name
    contains '.', no module name is shared by two applications and every
    module has exactly one version flagged default-for-module, construction
    succeeds and the mapping has at least (number of modules) + 1 keys; its
    keys are the full key of every version, the module-default key of every
    default version and the application id of every application default. *)
Theorem init_one_default_per_module (vs : list AppVersion) (lang : string) :
  vs ≠ [] →
  Forall (λ v, Py.dotless (module v) = true) vs →
  module_names_not_shared vs →
  one_default_per_module vs →
  ∃ self, AppURLBuilder_init vs lang = inr self ∧
    distinct_modules vs + 1 ≤ size (_versions_dict self) ∧
    ∀ k, is_Some (_versions_dict self !! k) ↔
      (∃ x, x ∈ vs ∧
            k = version x +:+ "." +:+ module x +:+ "." +:+ app_id x) ∨
      (∃ x, x ∈ vs ∧ is_default_for_module x = true ∧
            k = module x +:+ "." +:+ app_id x) ∨
      (∃ x, x ∈ vs ∧ is_default_for_module x = true ∧
            is_default_module x = true ∧ k = app_id x).
Proof.
  intros Hne Hdot Hshared Hone.
  pose proof (one_default_per_module_counts vs Hshared Hone) as Hcount.
  exists {| language := lang; _versions_dict := versions_dict_of vs |}.
  split; [by apply init_inr|]. simpl. split.
  - destruct (longest_full_name vs Hne) as (vmax & Hvmax & Hmax).
    set (D := module_default_versions_of vs) in *.
    set (modkey := λ v, module_default_alias (app_id v) (module v)).
    assert (Hlen : distinct_modules vs + 1 =
                   length (full_name vmax :: (modkey <$> D))).
    { simpl. rewrite length_fmap. lia. }
    rewrite Hlen. apply size_versions_dict_ge.
    + apply NoDup_cons. split.
      * intros (d & Hk & [Hd _]%elem_of_module_default_versions)%list_elem_of_fmap.
        pose proof (module_default_alias_shorter d) as Hshort.
        specialize (Hmax d Hd). fold (modkey d) in Hshort. rewrite <-Hk in Hshort.
        lia.
      * apply (NoDup_fmap_determined module);
          [|by apply module_default_versions_NoDup].
        rewrite Forall_forall in Hdot.
        intros x y [Hx _]%elem_of_module_default_versions
          [Hy _]%elem_of_module_default_versions.
        apply module_default_alias_inj; auto.
    + intros k Hk.
      assert (∃ x, (k, x) ∈ alias_writes vs) as [x Hx].
      { apply elem_of_cons in Hk as [->|(d & -> & Hd)%list_elem_of_fmap].
        - exists vmax. apply elem_of_alias_writes. left. done.
        - exists d. apply elem_of_alias_writes. right. left. done. }
      destruct (versions_dict_lookup_write _ _ _ Hx) as (y & -> & _). done.
  - intros k. split.
    + intros [x Hx%versions_dict_lookup_Some].
      apply elem_of_alias_writes in Hx.
      rewrite elem_of_module_default_versions, elem_of_app_default_versions in Hx.
      unfold full_name, full_alias, module_default_alias, app_default_alias in Hx.
      naive_solver.
    + intros Hk.
      assert (∃ x, (k, x) ∈ alias_writes vs) as [x Hx].
      { destruct Hk as [(x & ? & ->)|[(x & ? & ? & ->)|(x & ? & ? & ? & ->)]];
          exists x; apply elem_of_alias_writes;
          rewrite elem_of_module_default_versions, elem_of_app_default_versions;
          unfold full_name, full_alias, module_default_alias, app_default_alias;
          naive_solver. }
      destruct (versions_dict_lookup_write _ _ _ Hx) as (y & -> & _). done.
Qed.

(** *** [Application] *)

Lemma public_request_returns self method path m v https kwargs w x w' :
  public_request self method path m v https kwargs w = (inr x, w') → x = PyNone.
Proof.
  unfold public_request. case_decide; [done|].
  destruct (logged_request _ _ _ _ _ _ _ _ _) as [[e|response] w''];
    by intros [= <- _].
Qed.

Lemma public_request_drops_response self method path m v https kwargs w
    response w' :
  kwargs !! "method" = None → kwargs !! "self" = None →
  logged_request self method path m v https
    (default (PyInt 2) (kwargs !! "verbosity")) (delete "verbosity" kwargs) w =
    (inr response, w') →
  public_request self method path m v https kwargs w = (inr PyNone, w').
Proof.
  intros Hm Hs Hreq. unfold public_request. rewrite Hm, Hs.
  case_decide as Hcollide.
  - destruct Hcollide as [[? [=]]|[? [=]]].
  - by rewrite Hreq.
Qed.

Lemma public_request_raises self method path m v https kwargs w e w' :
  kwargs !! "method" = None → kwargs !! "self" = None →
  logged_request self method path m v https
    (default (PyInt 2) (kwargs !! "verbosity")) (delete "verbosity" kwargs) w =
    (inl e, w') →
  public_request self method path m v https kwargs w = (inl e, w').
Proof.
  intros Hm Hs Hreq. unfold public_request. rewrite Hm, Hs.
  case_decide as Hcollide.
  - destruct Hcollide as [[? [=]]|[? [=]]].
  - by rewrite Hreq.
Qed.

(** C9: a call of [get], [post], [put] or [delete] that returns, returns
    [None]; it does so whenever [logged_request] returns a response, which is
    dropped, and an exception of [logged_request] is passed on. *)
Theorem public_methods_return_None (self : Application) (path : string)
    (m v : option string) (https : bool) (kwargs : gmap string pyval)
    (w : World) :
  ∀ f method,
    (f, method) ∈ [(Application_get, "get"); (Application_post, "post");
                   (Application_put, "put"); (Application_delete, "delete")] →
    (∀ x w', f self path m v https kwargs w = (inr x, w') → x = PyNone) ∧
    (kwargs !! "method" = None → kwargs !! "self" = None →
     let request :=
       logged_request self method path m v https
         (default (PyInt 2) (kwargs !! "verbosity"))
         (delete "verbosity" kwargs) w in
     (∀ response w', request = (inr response, w') →
        f self path m v https kwargs w = (inr PyNone, w')) ∧
     (∀ e w', request = (inl e, w') →
        f self path m v https kwargs w = (inl e, w'))).
Proof.
  intros f method Hf.
  repeat (apply elem_of_cons in Hf as [[= -> ->]|Hf]);
    [..|by apply elem_of_nil in Hf];
    (split; [intros x w'; apply public_request_returns|]);
    intros Hm Hs request; split.
  all: try (intros response w'; by apply public_request_drops_response).
  all: intros e w'; by apply public_request_raises.
Qed.

(** *** [QueueHandler] *)

Lemma probe_queue_handled queue task s outcome p :
  queue_add queue task (platform s) = (outcome, p) →
  handled outcome →
  probe_queue queue task s =
  (None,
   {| results := {| queues := queues (results s) ++ [queue];
                    exists_ := exists_ (results s) ++ [enqueued outcome] |};
      response := if enqueued outcome then response s
                  else set_status 404 (response s);
      platform := p |}).
Proof.
  intros Hadd [->| ->]; unfold probe_queue; by rewrite Hadd.
Qed.

Lemma probe_queue_other queue task s name p :
  queue_add queue task (platform s) = (Some (OtherTaskqueueError name), p) →
  probe_queue queue task s =
  (Some (OtherTaskqueueError name),
   {| results := {| queues := queues (results s) ++ [queue];
                    exists_ := exists_ (results s) |};
      response := response s;
      platform := p |}).
Proof. intros Hadd. unfold probe_queue. by rewrite Hadd. Qed.

(** C8: in [QueueHandler.get], an enqueue that fails because the queue is
    unknown is handled: the status becomes 404, [False] is recorded for that
    queue and the payload is still written; the first error of another
    kind is raised out of the handler, and nothing is written. *)
Theorem queue_handler_get_errors (resp : HandlerResponse)
    (p0 p1 p2 p3 : Platform) (o1 o2 o3 : option taskqueue_exn) :
  queue_add "default" (TaskUrl "/python/taskqueue/clean_up") p0 = (o1, p1) →
  queue_add "default" (TaskUrl "/python/taskqueue/clean_up") p1 = (o2, p2) →
  queue_add "hawkeyepython-PullQueue-0" (TaskPayload "this is a fake payload") p2
    = (o3, p3) →
  (handled o1 → handled o2 → handled o3 →
   let res :=
     {| queues := ["default"; "default"; "hawkeyepython-PullQueue-0"];
        exists_ := [enqueued o1; enqueued o2; enqueued o3] |} in
   QueueHandler_get resp p0 =
   (None,
    {| results := res;
       response :=
         {| status := if enqueued o1 && enqueued o2 && enqueued o3
                      then 200%Z else 404%Z;
            out := out resp ++ [dumps_results res] |};
       platform := p3 |})) ∧
  (∀ name,
     o1 = Some (OtherTaskqueueError name) ∨
     (handled o1 ∧ o2 = Some (OtherTaskqueueError name)) ∨
     (handled o1 ∧ handled o2 ∧ o3 = Some (OtherTaskqueueError name)) →
     ∃ s, QueueHandler_get resp p0 = (Some (OtherTaskqueueError name), s) ∧
          out (response s) = out resp).
Proof.
  intros H1 H2 H3. split.
  - intros Ho1 Ho2 Ho3 res. unfold QueueHandler_get, DEFAULT_PUSH_QUEUE,
      PULL_QUEUE_NAME.
    rewrite (probe_queue_handled _ _ _ o1 p1) by done.
    rewrite (probe_queue_handled _ _ _ o2 p2) by done.
    rewrite (probe_queue_handled _ _ _ o3 p3) by done.
    destruct Ho1 as [->| ->], Ho2 as [->| ->], Ho3 as [->| ->]; reflexivity.
  - intros name [->|[[Ho1 ->]|(Ho1 & Ho2 & ->)]];
      unfold QueueHandler_get, DEFAULT_PUSH_QUEUE, PULL_QUEUE_NAME.
    + rewrite (probe_queue_other _ _ _ name p1) by done. eauto.
    + rewrite (probe_queue_handled _ _ _ o1 p1) by done.
      rewrite (probe_queue_other _ _ _ name p2) by done.
      eexists. split; [reflexivity|]. simpl. by destruct (enqueued o1).
    + rewrite (probe_queue_handled _ _ _ o1 p1) by done.
      rewrite (probe_queue_handled _ _ _ o2 p2) by done.
      rewrite (probe_queue_other _ _ _ name p3) by done.
      eexists. split; [reflexivity|]. simpl.
      by destruct (enqueued o1), (enqueued o2).
Qed.

End Properties.

(** ** Examples *)

Lemma build_url_known_version_example :
  AppURLBuilder_build_url (env := Sample.scripted) Sample.builder "appX"
    "/{lang}/product/add" (Some "moduleA") None true =
  inr "https://10.0.0.1:4380/py/product/add".
Proof.
  destruct (build_url_known_version (env := Sample.scripted) Sample.builder
              "appX" "/{lang}/product/add" (Some "moduleA") None true
              "moduleA.appX"
              (Sample.app_version "appX" "moduleA" "default-version" true false))
    as [H _]; [reflexivity..|].
  exact H.
Defined.

(** The claim C1 fails on a path with a second placeholder: the key is in
    the mapping and [build_url] raises the [KeyError] of [format]. *)
Lemma build_url_known_version_stray_field :
  get_version_alias (env := Sample.scripted) "appX" None None = Some "appX" ∧
  is_Some (_versions_dict Sample.builder !! "appX") ∧
  AppURLBuilder_build_url (env := Sample.scripted) Sample.builder "appX"
    "/{lang}/{id}" None None true =
  inl (FormatError (Py.ArgumentNotFound "id")).
Proof. split_and!; [reflexivity|by eexists|reflexivity]. Qed.

Lemma init_improper_iff_counts_differ_example :
  ∃ self, AppURLBuilder_init Sample.versions "py" = inr self ∧
          language self = "py".
Proof.
  exact (proj2 (init_improper_iff_counts_differ Sample.versions "py") eq_refl).
Defined.

Lemma init_one_default_per_module_example :
  ∃ self, AppURLBuilder_init Sample.versions "py" = inr self ∧
          3 ≤ size (_versions_dict self).
Proof.
  destruct (init_one_default_per_module Sample.versions "py")
    as (self & Hinit & Hsize & _).
  - discriminate.
  - by_evaluation.
  - by_evaluation.
  - by_evaluation.
  - exists self. split; [exact Hinit|exact Hsize].
Defined.

(** The claim C3 fails on the empty version list: every module has its one
    default version, construction succeeds, and the mapping has no key. *)
Lemma init_empty_list_no_keys :
  one_default_per_module [] ∧
  ∃ self, AppURLBuilder_init [] "py" = inr self ∧
          ¬ (distinct_modules [] + 1 ≤ size (_versions_dict self)).
Proof.
  split; [constructor|].
  exists {| language := "py"; _versions_dict := versions_dict_of [] |}.
  split; [vm_compute; reflexivity|]. vm_compute. lia.
Qed.

(** Why C3 needs module names without a dot: with dots, the keys of two
    modules coincide and two modules give two keys. *)
Lemma init_dotted_names_share_keys :
  one_default_per_module Sample.dotted_names ∧
  module_names_not_shared Sample.dotted_names ∧
  ∃ self, AppURLBuilder_init Sample.dotted_names "py" = inr self ∧
          distinct_modules Sample.dotted_names = 2 ∧
          size (_versions_dict self) = 2.
Proof.
  split_and!; [by_evaluation..|].
  exists {| language := "py";
            _versions_dict := versions_dict_of Sample.dotted_names |}.
  split_and!; vm_compute; reflexivity.
Qed.

(** The constructor counts module names, not modules of applications: two
    applications with a module of the same name are rejected although each
    module has its one default version. *)
Lemma init_shared_module_name_rejected :
  one_default_per_module Sample.shared_module_name ∧
  AppURLBuilder_init Sample.shared_module_name "py" =
    inl (ImproperVersionsList "Some of modules doesn't have default version").
Proof.
  split; [by_evaluation|].
  vm_compute. reflexivity.
Qed.

(** C4 on the code: with two default versions for one module and none for
    another, the two counts agree and the constructor returns a builder, in
    which the second module has no module-default key. *)
Lemma init_accepts_duplicate_default :
  ∃ self, AppURLBuilder_init Sample.duplicate_default "py" = inr self ∧
    _versions_dict self !! "moduleA.appX" =
      Some (Sample.app_version "appX" "moduleA" "v2" true false) ∧
    _versions_dict self !! "moduleB.appX" = None.
Proof.
  exists {| language := "py";
            _versions_dict := versions_dict_of Sample.duplicate_default |}.
  split_and!; vm_compute; reflexivity.
Qed.

Lemma build_url_unknown_version_example :
  AppURLBuilder_build_url (env := Sample.scripted) Sample.builder "appX"
    "/{lang}/x" (Some "moduleA") (Some "v9") false =
  inl (UnknownVersion
         ("Unknown version 'v9' for module 'moduleA'. Available versions are:"
          +:+ Py.nl +:+ "  appX"
          +:+ Py.nl +:+ "  default-version.moduleA.appX"
          +:+ Py.nl +:+ "  default.appX"
          +:+ Py.nl +:+ "  main-version.default.appX"
          +:+ Py.nl +:+ "  moduleA.appX"
          +:+ Py.nl +:+ "  old-version.moduleA.appX")).
Proof.
  destruct (build_url_unknown_version (env := Sample.scripted) Sample.builder
              "appX" "/{lang}/x" (Some "moduleA") (Some "v9") false
              "v9.moduleA.appX" "/py/x") as [H _]; [reflexivity..|].
  exact H.
Defined.

(** The claim C5 fails on a path that [format] rejects: the key is not in
    the mapping and the error raised is not [UnknownVersion]. *)
Lemma build_url_unknown_version_bad_path :
  get_version_alias (env := Sample.scripted) "appX" (Some "moduleA") (Some "v9")
    = Some "v9.moduleA.appX" ∧
  _versions_dict Sample.builder !! "v9.moduleA.appX" = None ∧
  AppURLBuilder_build_url (env := Sample.scripted) Sample.builder "appX"
    "/{lang}/{" (Some "moduleA") (Some "v9") false =
  inl (FormatError Py.SingleOpenBrace).
Proof. split_and!; reflexivity. Qed.

Lemma alias_mapping_shapes_example :
  _versions_dict Sample.builder !! "old-version.moduleA.appX" =
    Some (Sample.app_version "appX" "moduleA" "old-version" false false).
Proof.
  destruct (alias_mapping_shapes (env := Sample.scripted) Sample.versions "py"
              Sample.builder) as (Hfull & _).
  - reflexivity.
  - by_evaluation.
  - apply (Hfull (Sample.app_version "appX" "moduleA" "old-version" false false)).
    apply list_elem_of_here.
Defined.

(** The claim C6 fails when a version is listed twice: the full key is bound
    to the second record, not to the first. *)
Lemma alias_mapping_listed_twice :
  let first := Sample.app_version "appX" "moduleA" "v1" false false in
  ∃ self, AppURLBuilder_init Sample.listed_twice "py" = inr self ∧
    first ∈ Sample.listed_twice ∧
    _versions_dict self !! full_name first ≠ Some first.
Proof.
  exists {| language := "py";
            _versions_dict := versions_dict_of Sample.listed_twice |}.
  split_and!; [vm_compute; reflexivity|apply list_elem_of_here|].
  vm_compute. discriminate.
Qed.

Lemma resolve_app_default_example :
  ∃ d, resolve (env := Sample.scripted) Sample.builder "appX" None None = inr d ∧
       version d = "main-version".
Proof.
  destruct (resolve_app_default (env := Sample.scripted) Sample.versions "py"
              Sample.builder "appX") as (_ & Huniq & _); [reflexivity|].
  exists (Sample.app_version "appX" "default" "main-version" true true).
  split; [|reflexivity]. apply Huniq.
  - split_and!; [|reflexivity..]. do 2 apply list_elem_of_further.
    apply list_elem_of_here.
  - intros d' (Hin & _ & _ & Hdm).
    repeat (apply elem_of_cons in Hin as [->|Hin]);
      [discriminate Hdm|discriminate Hdm|reflexivity|by apply elem_of_nil in Hin].
Defined.

(** The claim C7 fails for an application id with a dot: no version belongs
    to the application "m.a", and resolving it returns the default version
    of the module "m" of the application "a". *)
Lemma resolve_dotted_app_id :
  ∃ self, AppURLBuilder_init Sample.dotted "py" = inr self ∧
    (∀ d, d ∈ Sample.dotted → app_id d ≠ "m.a") ∧
    resolve (env := Sample.scripted) self "m.a" None None =
      inr (Sample.app_version "a" "m" "v" true false).
Proof.
  exists {| language := "py"; _versions_dict := versions_dict_of Sample.dotted |}.
  split_and!; [vm_compute; reflexivity| |vm_compute; reflexivity].
  intros d Hd. apply list_elem_of_singleton in Hd. subst d. simpl. discriminate.
Qed.

Lemma queue_handler_get_errors_example :
  QueueHandler_get (env := Sample.scripted) {| status := 200; out := [] |}
    (Sample.script [None; None; Some UnknownQueueError]) =
  (None,
   {| results :=
        {| queues := ["default"; "default"; "hawkeyepython-PullQueue-0"];
           exists_ := [true; true; false] |};
      response :=
        {| status := 404;
           out := ["default,default,hawkeyepython-PullQueue-0"] |};
      platform := Sample.script [] |}).
Proof.
  destruct (queue_handler_get_errors (env := Sample.scripted)
              {| status := 200; out := [] |}
              (Sample.script [None; None; Some UnknownQueueError])
              (Sample.script [None; Some UnknownQueueError])
              (Sample.script [Some UnknownQueueError])
              (Sample.script [])
              None None (Some UnknownQueueError))
    as [H _]; [reflexivity..|].
  apply H; [by left|by left|by right].
Defined.

Lemma public_methods_return_None_example :
  ∃ w, Application_get (env := Sample.scripted) Sample.application "/{lang}/x"
         None None false ∅ Sample.world = (inr PyNone, w).
Proof.
  destruct (public_methods_return_None (env := Sample.scripted)
              Sample.application "/{lang}/x" None None false ∅ Sample.world
              Application_get "get") as [_ H]; [apply list_elem_of_here|].
  destruct H as [Hret _]; [reflexivity..|].
  eexists. apply (Hret Sample.ok_response). reflexivity.
Defined.

Lemma build_url_malformed_path_example :
  AppURLBuilder_build_url (env := Sample.scripted) Sample.builder "appX"
    "/{lang}/{id}" None None true = inl (FormatError (Py.ArgumentNotFound "id")).
Proof.
  destruct (build_url_malformed_path (env := Sample.scripted) Sample.builder
              "appX" "/{lang}/{id}" None None true) as (e & Hfmt & Hurl).
  - right. apply Exists_cons_tl, Exists_cons_hd. discriminate.
  - rewrite Hurl. f_equal. f_equal.
    assert (inl e = inl (B := string) (Py.ArgumentNotFound "id")) as Heq
      by (rewrite <-Hfmt; reflexivity).
    by injection Heq.
Defined.

(** The claim C10 fails for a field that converts [lang]: "{lang!s}" is a
    replacement field other than "{lang}", and it is formatted without
    error. *)
Lemma build_url_converted_lang :
  (Py.scan_fields Py.Literal "/{lang!s}/x").1 = ["lang!s"] ∧
  AppURLBuilder_build_url (env := Sample.scripted) Sample.builder "appX"
    "/{lang!s}/x" None None true = inr "https://10.0.0.1:4380/py/x".
Proof. split; reflexivity. Qed.

(** ** Further properties of the code *)

Section MoreProperties.

Context `{env : Environment}.

(** *** [Application] *)

Lemma put_kwargs_defaults_lookup_ne self (kwargs : gmap string pyval) k :
  k ≠ "verify" → _put_kwargs_defaults self kwargs !! k = kwargs !! k.
Proof.
  intros Hk. unfold _put_kwargs_defaults.
  destruct (kwargs !! "verify"); [done|]. by rewrite lookup_insert_ne.
Qed.

Lemma put_kwargs_defaults_lookup_verify self (kwargs : gmap string pyval) :
  _put_kwargs_defaults self kwargs !! "verify" =
  Some (default (PyBool (_verify_certificate self)) (kwargs !! "verify")).
Proof.
  unfold _put_kwargs_defaults.
  destruct (kwargs !! "verify") eqn:Hv; [done|]. by rewrite lookup_insert_eq.
Qed.

(** X1: [_put_kwargs_defaults] never replaces a [verify] the caller gave,
    adds the application's setting when the caller gave none, leaves every
    other keyword as it is, and changes nothing when applied again. *)
Theorem put_kwargs_defaults_keeps_caller (self : Application)
    (kwargs : gmap string pyval) :
  _put_kwargs_defaults self kwargs !! "verify" =
    Some (default (PyBool (_verify_certificate self)) (kwargs !! "verify")) ∧
  (∀ k, k ≠ "verify" → _put_kwargs_defaults self kwargs !! k = kwargs !! k) ∧
  _put_kwargs_defaults self (_put_kwargs_defaults self kwargs) =
    _put_kwargs_defaults self kwargs.
Proof.
  split_and!.
  - apply put_kwargs_defaults_lookup_verify.
  - intros k. apply put_kwargs_defaults_lookup_ne.
  - unfold _put_kwargs_defaults at 1.
    by rewrite put_kwargs_defaults_lookup_verify.
Qed.

Lemma logged_request_bad_url self method path m v https verbosity kwargs w e :
  Application_build_url self path m v https = inl e →
  logged_request self method path m v https verbosity kwargs w = (inl e, w).
Proof. unfold logged_request. by intros ->. Qed.

(** X2: when the URL cannot be built (unknown version, malformed path), a
    public method raises that exception before any request is sent and
    before anything is logged. *)
Theorem public_methods_bad_url (self : Application) (path : string)
    (m v : option string) (https : bool) (kwargs : gmap string pyval)
    (w : World) (e : exn) f method :
  (f, method) ∈ [(Application_get, "get"); (Application_post, "post");
                 (Application_put, "put"); (Application_delete, "delete")] →
  kwargs !! "method" = None → kwargs !! "self" = None →
  Application_build_url self path m v https = inl e →
  f self path m v https kwargs w = (inl e, w).
Proof.
  intros Hf Hm Hs Hurl.
  assert (public_request self method path m v https kwargs w = (inl e, w)) as H.
  { apply public_request_raises; [done..|]. by apply logged_request_bad_url. }
  repeat (apply elem_of_cons in Hf as [[= -> ->]|Hf]); try exact H.
  by apply elem_of_nil in Hf.
Qed.

(** What a call of [_log_request] does to the world. *)
Lemma log_request_cases method url hdrs body verbosity w :
  let res := _log_request method url hdrs body verbosity w in
  net res.2 = net w ∧
  ∃ entries, log res.2 = log w ++ entries ∧ length entries ≤ 1 ∧
    (py_lt_one verbosity = true → res.1 = inr () ∧ entries = []) ∧
    (res.1 = inr () → py_lt_one verbosity = false → length entries = 1) ∧
    (∀ e, res.1 = inl e → entries = []).
Proof.
  unfold _log_request. destruct (py_lt_one verbosity); simpl.
  { split; [done|]. exists []. rewrite app_nil_r. split_and!; simpl; done || lia. }
  destruct (iteritems hdrs) as [e|items]; simpl.
  - split; [done|]. exists []. rewrite app_nil_r. split_and!; simpl; done || lia.
  - split; [done|]. eexists [_]. split_and!; simpl; done || lia.
Qed.

Lemma log_response_cases status hdrs body verbosity w :
  let res := _log_response status hdrs body verbosity w in
  net res.2 = net w ∧
  ∃ entries, log res.2 = log w ++ entries ∧ length entries ≤ 1 ∧
    (py_lt_one verbosity = true → res.1 = inr () ∧ entries = []) ∧
    (res.1 = inr () → py_lt_one verbosity = false → length entries = 1) ∧
    (∀ e, res.1 = inl e → entries = []).
Proof.
  unfold _log_response. destruct (py_lt_one verbosity); simpl.
  { split; [done|]. exists []. rewrite app_nil_r. split_and!; simpl; done || lia. }
  destruct (iteritems hdrs) as [e|items]; simpl.
  - split; [done|]. exists []. rewrite app_nil_r. split_and!; simpl; done || lia.
  - split; [done|]. eexists [_]. split_and!; simpl; done || lia.
Qed.

(** The log and the network after a call of [logged_request]. *)
Lemma logged_request_effect self method path m v https verbosity kwargs w :
  let res := logged_request self method path m v https verbosity kwargs w in
  (∀ url, Application_build_url self path m v https = inr url →
     net res.2 =
     (requests_request method url (_put_kwargs_defaults self kwargs) (net w)).2) ∧
  ∃ entries, log res.2 = log w ++ entries ∧ length entries ≤ 2 ∧
    (py_lt_one verbosity = true → entries = []) ∧
    (∀ response, res.1 = inr response → py_lt_one verbosity = false →
       length entries = 2) ∧
    (∀ e, res.1 = inl e → length entries ≤ 1).
Proof.
  unfold logged_request.
  destruct (Application_build_url self path m v https) as [e|url]; simpl.
  { split; [by intros ? [=]|]. exists []. rewrite app_nil_r.
    split_and!; simpl; done || lia. }
  destruct (requests_request method url _ (net w)) as [[e|response] n] eqn:Hrr;
    simpl.
  - destruct (recovered_body _) as [e'|request_body]; simpl.
    { split; [intros ? [= <-]; rewrite Hrr; simpl; congruence|]. exists []. rewrite app_nil_r.
      split_and!; simpl; done || lia. }
    pose proof (log_request_cases method url
                  (default PyNone (_put_kwargs_defaults self kwargs !! "headers"))
                  request_body verbosity {| net := n; log := log w |}) as Hreq.
    destruct (_log_request _ _ _ _ _ _) as [[e'|[]] w1]; simpl in Hreq;
      destruct Hreq as (Hnet & entries & Hlog & Hlen & Hsilent & _ & _);
      (split; [intros ? [= <-]; rewrite Hrr; simpl; congruence|]); exists entries;
      (split_and!; [done|lia|by intros [_ ?]%Hsilent|done|simpl; lia]).
  - pose proof (log_request_cases method url
                  (prepared_headers (request response))
                  (prepared_body (request response)) verbosity
                  {| net := n; log := log w |}) as Hreq.
    destruct (_log_request _ _ _ _ _ _) as [[e'|[]] w1]; simpl in Hreq;
      destruct Hreq as (Hnet & entries & Hlog & Hlen & Hsilent & Hone & Hnone).
    { split; [intros ? [= <-]; rewrite Hrr; simpl; congruence|]. exists entries.
      split_and!; [done|lia|by intros [_ ?]%Hsilent|done|simpl; lia]. }
    pose proof (log_response_cases (status_code response) (headers response)
                  (content response) verbosity w1) as Hresp.
    destruct (_log_response _ _ _ _ _) as [[e'|[]] w2]; simpl in Hresp;
      destruct Hresp as (Hnet' & entries' & Hlog' & Hlen' & Hsilent' & Hone' & Hnone').
    + split; [intros ? [= <-]; rewrite Hrr; simpl; congruence|].
      exists entries. rewrite (Hnone' e' eq_refl), app_nil_r in Hlog'.
      split_and!; [simpl; congruence|lia|by intros [_ ?]%Hsilent|done|simpl; lia].
    + split; [intros ? [= <-]; rewrite Hrr; simpl; congruence|].
      exists (entries ++ entries'). simpl. rewrite Hlog', Hlog, (assoc_L (++)).
      split_and!; [done|rewrite length_app; lia| | |done].
      * intros Hlt. destruct (Hsilent Hlt) as [_ ->].
        by destruct (Hsilent' Hlt) as [_ ->].
      * intros _ _ Hge. rewrite length_app, Hone, Hone'; done.
Qed.

(** X3: [logged_request] only appends to the log, and at most two entries;
    it appends nothing when verbosity is below 1, exactly two (the request
    and the response) when it returns a response at verbosity 1 or more, and
    at most one when it raises. *)
Theorem logged_request_log (self : Application) (method path : string)
    (m v : option string) (https : bool) (verbosity : pyval)
    (kwargs : gmap string pyval) (w : World) :
  let res := logged_request self method path m v https verbosity kwargs w in
  ∃ entries, log res.2 = log w ++ entries ∧ length entries ≤ 2 ∧
    (py_lt_one verbosity = true → entries = []) ∧
    (∀ response, res.1 = inr response → py_lt_one verbosity = false →
       length entries = 2) ∧
    (∀ e, res.1 = inl e → length entries ≤ 1).
Proof. intros res. apply logged_request_effect. Qed.

(** X5: once the URL is built, [logged_request] sends one request, with the
    method and URL unchanged and the keywords completed by [verify], and
    nothing else touches the network, whether the call returns or raises. *)
Theorem logged_request_sends_one_request (self : Application)
    (method path : string) (m v : option string) (https : bool)
    (verbosity : pyval) (kwargs : gmap string pyval) (w : World) (url : string) :
  Application_build_url self path m v https = inr url →
  net (logged_request self method path m v https verbosity kwargs w).2 =
  (requests_request method url (_put_kwargs_defaults self kwargs) (net w)).2.
Proof.
  intros Hurl.
  by apply (logged_request_effect self method path m v https verbosity kwargs w).
Qed.

(** X4: a public method called with a [verbosity] keyword below 1 (as in
    [get(path, verbosity=0)]) leaves the log as it was, whatever the outcome
    of the call. *)
Theorem public_methods_silent (self : Application) (path : string)
    (m v : option string) (https : bool) (kwargs : gmap string pyval)
    (w : World) (x : pyval) f method :
  (f, method) ∈ [(Application_get, "get"); (Application_post, "post");
                 (Application_put, "put"); (Application_delete, "delete")] →
  kwargs !! "verbosity" = Some x →
  py_lt_one x = true →
  log (f self path m v https kwargs w).2 = log w.
Proof.
  intros Hf Hkw Hlt.
  assert (log (public_request self method path m v https kwargs w).2 = log w) as H.
  { unfold public_request. case_decide; [done|]. rewrite Hkw. simpl.
    destruct (logged_request_effect self method path m v https x
                (delete "verbosity" kwargs) w)
      as (_ & entries & Hlog & _ & Hsilent & _).
    rewrite (Hsilent Hlt), app_nil_r in Hlog.
    by destruct (logged_request _ _ _ _ _ _ _ _ _) as [[e|response] w']. }
  repeat (apply elem_of_cons in Hf as [[= -> ->]|Hf]); try exact H.
  by apply elem_of_nil in Hf.
Qed.

Lemma iteritems_of_dict x :
  (py_truth x = true → ∃ items, x = PyDict items) →
  ∃ items, iteritems x = inr items.
Proof.
  intros Hdict. unfold iteritems, py_or.
  destruct (py_truth x) eqn:Htruth; [|by eexists].
  destruct (Hdict eq_refl) as [items ->]. by eexists.
Qed.

(** X6: when the request raises and the keywords are well formed (the
    headers, if given and not empty, are a dictionary; there is a [data]
    keyword, or no [json] keyword, or one that [json.dumps] accepts),
    [logged_request] raises the exception of the request itself. *)
Theorem logged_request_reraises (self : Application) (method path : string)
    (m v : option string) (https : bool) (verbosity : pyval)
    (kwargs : gmap string pyval) (w : World) (url : string) (e : exn) (n : Net) :
  Application_build_url self path m v https = inr url →
  requests_request method url (_put_kwargs_defaults self kwargs) (net w) =
    (inl e, n) →
  (∀ x, kwargs !! "headers" = Some x → py_truth x = true →
        ∃ items, x = PyDict items) →
  (kwargs !! "data" = None → ∀ j, kwargs !! "json" = Some j →
        ∃ text, json_dumps j = inr text) →
  (logged_request self method path m v https verbosity kwargs w).1 = inl e.
Proof.
  intros Hurl Hreq Hheaders Hbody. unfold logged_request.
  rewrite Hurl, Hreq. unfold recovered_body.
  rewrite !put_kwargs_defaults_lookup_ne by done.
  assert (∃ body, match kwargs !! "data" with
                  | Some data => inr data
                  | None =>
                      match kwargs !! "json" with
                      | Some j =>
                          match json_dumps j with
                          | inl e0 => inl e0
                          | inr text => inr (PyStr text)
                          end
                      | None => inr (PyStr "LOGGING STUB: Files are here")
                      end
                  end = inr (A := exn) body) as [body ->].
  { destruct (kwargs !! "data") as [data|]; [by eexists|].
    destruct (kwargs !! "json") as [j|]; [|by eexists].
    destruct (Hbody eq_refl j eq_refl) as [text ->]. by eexists. }
  unfold _log_request. destruct (py_lt_one verbosity); [done|].
  destruct (iteritems_of_dict (default PyNone (kwargs !! "headers")))
    as [items ->]; [|done].
  destruct (kwargs !! "headers") as [x|]; simpl; [by apply Hheaders|done].
Qed.

(** X7: when the request raises, there is a [json] keyword, no [data]
    keyword, and [json.dumps] rejects the value, the caller gets
    [UnboundLocalError] for [request_body] in place of the exception of the
    request, and nothing is logged. *)
Theorem logged_request_unserializable_json (self : Application)
    (method path : string) (m v : option string) (https : bool)
    (verbosity : pyval) (kwargs : gmap string pyval) (w : World)
    (url : string) (e e' : exn) (n : Net) (j : pyval) :
  Application_build_url self path m v https = inr url →
  requests_request method url (_put_kwargs_defaults self kwargs) (net w) =
    (inl e, n) →
  kwargs !! "data" = None →
  kwargs !! "json" = Some j →
  json_dumps j = inl e' →
  logged_request self method path m v https verbosity kwargs w =
  (inl (UnboundLocalError "request_body"), {| net := n; log := log w |}).
Proof.
  intros Hurl Hreq Hdata Hjson Hdumps. unfold logged_request.
  rewrite Hurl, Hreq. unfold recovered_body.
  rewrite !put_kwargs_defaults_lookup_ne by done.
  by rewrite Hdata, Hjson, Hdumps.
Qed.

(** *** [AppURLBuilder] *)

(** X8: a URL returned by [build_url] is the base URL of the resolved
    version without its trailing slashes, one slash, and a path that does
    not start with a slash: base and path are joined by exactly one slash. *)
Theorem build_url_joins_with_one_slash (self : AppURLBuilder)
    (app path : string) (m v : option string) (https : bool) (url : string) :
  AppURLBuilder_build_url self app path m v https = inr url →
  ∃ x b p n,
    resolve self app m v = inr x ∧
    (if https then https_url x else http_url x) = b +:+ Py.slashes n ∧
    url = b +:+ "/" +:+ p ∧
    (∀ t, b ≠ t +:+ "/") ∧
    Py.startswith "/" p = false.
Proof.
  unfold AppURLBuilder_build_url.
  destruct (Py.format_lang _ _ _) as [e|text]; [done|].
  destruct (resolve self app m v) as [e|x]; [done|]. intros [= <-].
  destruct (rstrip_slash_spec (if https then https_url x else http_url x))
    as (n & Hbase & Hend).
  destruct (lstrip_slash_spec text) as (k & _ & Hstart).
  exists x, (Py.rstrip_slash (if https then https_url x else http_url x)),
    (Py.lstrip_slash text), n.
  split_and!; done.
Qed.

Lemma resolve_inr self app m v x :
  resolve self app m v = inr x →
  ∃ key, get_version_alias app m v = Some key ∧
         _versions_dict self !! key = Some x.
Proof.
  unfold resolve. destruct (get_version_alias app m v) as [key|]; [|done].
  destruct (_versions_dict self !! key) as [y|] eqn:Hy; [|done].
  intros [= <-]. eauto.
Qed.

(** Two strings joined by a dot are recovered from the result when the
    first has no dot. *)
Lemma dotless_split_inj s1 t1 s2 t2 :
  Py.dotless s1 = true → Py.dotless s2 = true →
  s1 +:+ "." +:+ t1 = s2 +:+ "." +:+ t2 → s1 = s2 ∧ t1 = t2.
Proof.
  intros H1 H2 Heq.
  assert (s1 = s2) as <- by (by apply (module_default_alias_inj t1 s1 t2 s2)).
  split; [done|]. apply (inj (String.app s1)) in Heq.
  by apply (inj (String.app ".")) in Heq.
Qed.

(** X9: when application ids, module names and version names contain no
    '.', a version returned by the resolution is one of the input versions,
    belongs to the application asked for, has the module and the version that
    were given, is the default of its module when no version was given, and
    is in the default module when no module was given. *)
Theorem resolve_matches_request (vs : list AppVersion) (lang : string)
    (self : AppURLBuilder) (app : string) (m v : option string)
    (x : AppVersion) :
  AppURLBuilder_init vs lang = inr self →
  Forall (λ y, Py.dotless (app_id y) = true ∧ Py.dotless (module y) = true ∧
               Py.dotless (version y) = true) vs →
  Py.dotless app = true →
  (∀ s, m = Some s → Py.dotless s = true) →
  (∀ s, v = Some s → Py.dotless s = true) →
  (m = None → v = None) →
  resolve self app m v = inr x →
  x ∈ vs ∧ app_id x = app ∧
  (∀ s, m = Some s → module x = s) ∧
  (∀ s, v = Some s → version x = s) ∧
  (v = None → is_default_for_module x = true) ∧
  (m = None → is_default_module x = true).
Proof.
  intros [_ ->]%init_inr Hdot Happ Hm Hv Hmv (key & Hkey & Hx)%resolve_inr.
  simpl in Hx. apply versions_dict_lookup_Some, elem_of_alias_writes in Hx.
  rewrite elem_of_module_default_versions, elem_of_app_default_versions in Hx.
  assert (Hin : x ∈ vs) by naive_solver.
  rewrite Forall_forall in Hdot. destruct (Hdot x Hin) as (Hxa & Hxm & Hxv).
  unfold full_name, full_alias, module_default_alias, app_default_alias in Hx.
  destruct m as [m|], v as [v|]; simpl in Hkey;
    [| |by specialize (Hmv eq_refl)|]; injection Hkey as <-.
  - (* module and version given: the key is "v.m.app" *)
    unfold full_alias in Hx. destruct Hx as [[_ Hk]|[[_ Hk]|[_ Hk]]].
    + apply dotless_split_inj in Hk as [-> Hk]; [|by eauto..].
      apply dotless_split_inj in Hk as [-> ->]; [|by eauto..].
      split_and!; [done|done|by intros ? [= <-]|by intros ? [= <-]|done|done].
    + apply dotless_split_inj in Hk as [_ Hk]; [|by eauto..].
      rewrite <-Hk, dotless_app_dot in Hxa. done.
    + rewrite <-Hk, dotless_app_dot in Hxa. done.
  - (* only the module given: the key is "m.app" *)
    unfold module_default_alias in Hx. destruct Hx as [[_ Hk]|[[[_ Hd] Hk]|[_ Hk]]].
    + apply dotless_split_inj in Hk as [_ Hk]; [|by eauto..].
      rewrite Hk, dotless_app_dot in Happ. done.
    + apply dotless_split_inj in Hk as [-> ->]; [|by eauto..].
      split_and!; [done|done|by intros ? [= <-]|done|done|done].
    + rewrite <-Hk, dotless_app_dot in Hxa. done.
  - (* neither given: the key is the application id *)
    unfold app_default_alias in Hx. destruct Hx as [[_ Hk]|[[_ Hk]|[(_ & ? & ?) Hk]]].
    + rewrite Hk, dotless_app_dot in Happ. done.
    + rewrite Hk, dotless_app_dot in Happ. done.
    + split_and!; done.
Qed.

(** *** The mapping as a sequence of writes *)

Lemma foldl_insert_union (l : list (string * AppVersion))
    (d : gmap string AppVersion) :
  foldl (λ d w, <[w.1 := w.2]> d) d l = foldl (λ d w, <[w.1 := w.2]> d) ∅ l ∪ d.
Proof.
  induction l as [|w l IH] using rev_ind; simpl.
  - by rewrite (left_id_L ∅ (∪)).
  - by rewrite !foldl_snoc, IH, insert_union_l.
Qed.

Lemma dict_comprehension_foldl key l :
  dict_comprehension key l =
  foldl (λ d w, <[w.1 := w.2]> d) ∅ ((λ x, (key x, x)) <$> l).
Proof.
  induction l as [|x l IH] using rev_ind; [done|].
  rewrite dict_comprehension_snoc, fmap_app. simpl.
  by rewrite foldl_snoc, IH.
Qed.

(** The mapping is what writing the entries one after the other gives. *)
Lemma versions_dict_foldl vs :
  versions_dict_of vs = foldl (λ d w, <[w.1 := w.2]> d) ∅ (alias_writes vs).
Proof.
  unfold versions_dict_of, dict_update, alias_writes.
  rewrite !foldl_app, !dict_comprehension_foldl.
  rewrite (foldl_insert_union (_ <$> app_default_versions_of vs) (foldl _ _ _)).
  by rewrite (foldl_insert_union (_ <$> module_default_versions_of vs)
                (foldl _ _ _)).
Qed.

Lemma foldl_insert_lookup_notin (l : list (string * AppVersion))
    (d : gmap string AppVersion) (k : string) :
  (∀ y, (k, y) ∉ l) → foldl (λ d w, <[w.1 := w.2]> d) d l !! k = d !! k.
Proof.
  revert d. induction l as [|[k' y] l IH]; intros d Hk; [done|]. simpl.
  rewrite IH by (intros z Hz; apply (Hk z); by right).
  apply lookup_insert_ne. intros ->. apply (Hk y). by left.
Qed.

Lemma foldl_insert_size (l : list (string * AppVersion))
    (d : gmap string AppVersion) :
  size (foldl (λ d w, <[w.1 := w.2]> d) d l) ≤ size d + length l.
Proof.
  revert d. induction l as [|[k y] l IH]; intros d; simpl; [lia|].
  etrans; [apply IH|]. rewrite map_size_insert.
  destruct (d !! k); simpl; lia.
Qed.

(** X10: the mapping keeps the last write of every key, in the order full
    keys of the versions, module-default keys of the default versions,
    application ids of the application defaults: a key written again later
    is bound to the later version. *)
Theorem versions_dict_last_write (vs : list AppVersion) (k : string)
    (x : AppVersion) (before after : list (string * AppVersion)) :
  alias_writes vs = before ++ (k, x) :: after →
  (∀ y, (k, y) ∉ after) →
  versions_dict_of vs !! k = Some x.
Proof.
  intros Hwrites Hlast.
  rewrite versions_dict_foldl, Hwrites, foldl_app. simpl.
  rewrite foldl_insert_lookup_notin by done. apply lookup_insert_eq.
Qed.

(** X12: the mapping has at most three keys per input version, and the list
    of known versions of an [UnknownVersion] message has one line per key. *)
Theorem versions_dict_size (vs : list AppVersion) (lang : string)
    (self : AppURLBuilder) :
  AppURLBuilder_init vs lang = inr self →
  size (_versions_dict self) ≤ 3 * length vs ∧
  length (known_versions self) = size (_versions_dict self).
Proof.
  intros [_ ->]%init_inr. simpl. split.
  - rewrite versions_dict_foldl.
    etrans; [apply foldl_insert_size|]. rewrite map_size_empty.
    unfold alias_writes. rewrite !length_app, !length_fmap.
    pose proof (length_filter (λ v, is_default_for_module v = true) vs).
    pose proof (length_filter (λ v, is_default_module v = true)
                  (module_default_versions_of vs)).
    unfold app_default_versions_of, module_default_versions_of in *. lia.
  - unfold known_versions. simpl.
    by rewrite sorted_Permutation, length_fmap, length_map_to_list.
Qed.

Lemma size_list_to_set_remove_dups (l : list string) :
  size (list_to_set l : gset string) = length (remove_dups l).
Proof.
  rewrite <-(size_list_to_set (C:=gset string) (remove_dups l))
    by apply NoDup_remove_dups.
  f_equal. apply set_eq. intros x.
  by rewrite !elem_of_list_to_set, elem_of_remove_dups.
Qed.

Lemma size_list_to_set_le (l : list string) :
  size (list_to_set l : gset string) ≤ length l.
Proof.
  rewrite size_list_to_set_remove_dups.
  induction l as [|x l IH]; simpl; [done|]. case_decide; simpl; lia.
Qed.

(** A list has as many distinct elements as elements only if it has no
    duplicate. *)
Lemma size_list_to_set_NoDup (l : list string) :
  size (list_to_set l : gset string) = length l → NoDup l.
Proof.
  induction l as [|x l IH]; [constructor|].
  rewrite list_to_set_cons. simpl. intros Hsize.
  pose proof (size_list_to_set_le l) as Hle.
  destruct (decide (x ∈ l)) as [Hx|Hx].
  - assert ({[x]} ∪ list_to_set l = (list_to_set l : gset string)) as Heq
      by set_solver.
    rewrite Heq in Hsize. lia.
  - rewrite size_union, size_singleton in Hsize by set_solver.
    apply NoDup_cons. split; [done|]. apply IH. lia.
Qed.

Lemma default_modules_subseteq vs :
  (list_to_set (module <$> module_default_versions_of vs) : gset string)
  ⊆ modules_of vs.
Proof.
  intros name. unfold modules_of.
  rewrite !elem_of_list_to_set, !list_elem_of_fmap.
  intros (d & -> & [Hd _]%elem_of_module_default_versions). eauto.
Qed.

Lemma init_succeeds_iff vs lang :
  (∃ self, AppURLBuilder_init vs lang = inr self) ↔
  size (modules_of vs) = length (module <$> module_default_versions_of vs).
Proof.
  rewrite length_fmap, size_modules_of. split.
  - intros [self [Hcount _]%init_inr]. done.
  - intros Hcount. eexists. by apply init_inr.
Qed.

Lemma modules_covered_iff vs :
  (∀ v, v ∈ vs →
     ∃ d, d ∈ vs ∧ is_default_for_module d = true ∧ module d = module v) ↔
  modules_of vs ⊆
    (list_to_set (module <$> module_default_versions_of vs) : gset string).
Proof.
  unfold modules_of. split.
  - intros Hcover name.
    rewrite !elem_of_list_to_set, !list_elem_of_fmap.
    intros (v & -> & (d & Hd & Hflag & Hm)%Hcover).
    exists d. by rewrite elem_of_module_default_versions.
  - intros Hsub v Hv.
    assert (module v ∈ (list_to_set (module <$> vs) : gset string)) as Hin
      by (rewrite elem_of_list_to_set, list_elem_of_fmap; eauto).
    apply Hsub in Hin. rewrite elem_of_list_to_set, list_elem_of_fmap in Hin.
    destruct Hin as (d & Hm & [Hd Hflag]%elem_of_module_default_versions).
    eauto.
Qed.

(** X11: when no module name has two versions flagged default-for-module,
    construction succeeds exactly when every module of the list has a
    version flagged default-for-module. *)
Theorem init_defaults_cover_modules (vs : list AppVersion) (lang : string) :
  NoDup (module <$> module_default_versions_of vs) →
  (∃ self, AppURLBuilder_init vs lang = inr self) ↔
  (∀ v, v ∈ vs →
     ∃ d, d ∈ vs ∧ is_default_for_module d = true ∧ module d = module v).
Proof.
  intros Hnodup. rewrite init_succeeds_iff, modules_covered_iff.
  rewrite <-(size_list_to_set (C:=gset string)) by done.
  pose proof (default_modules_subseteq vs) as Hsub. split.
  - intros Hsize. symmetry in Hsize.
    by rewrite (set_subseteq_size_eq _ _ Hsub) by lia.
  - intros Hsup. f_equal. by apply (anti_symm (⊆)).
Qed.

(** X16: when every module of the list has a version flagged
    default-for-module, construction succeeds exactly when no module name
    has two such versions: a duplicated default is then always rejected. *)
Theorem init_rejects_duplicate_default (vs : list AppVersion) (lang : string) :
  (∀ v, v ∈ vs →
     ∃ d, d ∈ vs ∧ is_default_for_module d = true ∧ module d = module v) →
  (∃ self, AppURLBuilder_init vs lang = inr self) ↔
  NoDup (module <$> module_default_versions_of vs).
Proof.
  intros Hcover%modules_covered_iff. rewrite init_succeeds_iff.
  pose proof (default_modules_subseteq vs) as Hsub.
  assert (modules_of vs =
          list_to_set (module <$> module_default_versions_of vs)) as ->
    by (by apply (anti_symm (⊆))).
  split.
  - apply size_list_to_set_NoDup.
  - apply size_list_to_set.
Qed.

(** *** Slashes in front of the path *)

Lemma on_text_on_text f g r :
  Py.on_text f (Py.on_text g r) = Py.on_text (λ text, f (g text)) r.
Proof. by destruct r. Qed.

Lemma format_lang_slashes language n path :
  Py.format_lang format_extended language (Py.slashes n +:+ path) =
  Py.on_text (String.app (Py.slashes n))
    (Py.format_lang format_extended language path).
Proof.
  unfold Py.format_lang. induction n as [|n IH]; cbn [Py.slashes].
  - by destruct (Py.markup _ _ _).
  - rewrite string_app_cons, markup_literal_char by done.
    by rewrite IH, on_text_on_text.
Qed.

Lemma lstrip_slash_slashes n text :
  Py.lstrip_slash (Py.slashes n +:+ text) = Py.lstrip_slash text.
Proof.
  induction n as [|n IH]; [done|].
  cbn [Py.slashes]. rewrite string_app_cons. cbn [Py.lstrip_slash].
  by rewrite Ascii.eqb_refl.
Qed.

(** X17: slashes put in front of the path change nothing: [build_url] gives
    the same URL, or raises the same exception, as for the path without
    them. *)
Theorem build_url_ignores_leading_slashes (self : AppURLBuilder)
    (app path : string) (m v : option string) (https : bool) (n : nat) :
  AppURLBuilder_build_url self app (Py.slashes n +:+ path) m v https =
  AppURLBuilder_build_url self app path m v https.
Proof.
  unfold AppURLBuilder_build_url. rewrite format_lang_slashes.
  destruct (Py.format_lang format_extended (language self) path) as [e|text];
    [done|]. simpl.
  destruct (resolve self app m v) as [e|x]; [done|].
  by rewrite lstrip_slash_slashes.
Qed.

(** *** [QueueHandler.get] on every answer of the service *)

(** X13: whatever the task queue service answers, [QueueHandler.get] leaves
    the status at 200 or 404, at 404 exactly when it recorded [False] for a
    queue; it never lets [UnknownQueueError] out; when it returns it has
    recorded three queues and three flags and written one payload after
    what was written before; when it raises it has written nothing and the
    last queue recorded has no flag. *)
Theorem queue_handler_get_invariants (resp : HandlerResponse) (p : Platform) :
  let res := QueueHandler_get resp p in
  (status (response res.2) = 200%Z ∨ status (response res.2) = 404%Z) ∧
  (status (response res.2) = 404%Z ↔ false ∈ exists_ (results res.2)) ∧
  res.1 ≠ Some UnknownQueueError ∧
  (res.1 = None →
   length (queues (results res.2)) = 3 ∧
   length (exists_ (results res.2)) = 3 ∧
   ∃ payload, out (response res.2) = out resp ++ [payload]) ∧
  (∀ e, res.1 = Some e →
   out (response res.2) = out resp ∧
   length (queues (results res.2)) = S (length (exists_ (results res.2)))).
Proof.
  unfold QueueHandler_get, probe_queue. simpl.
  repeat match goal with
         | |- context [queue_add ?q ?t ?p] =>
             destruct (queue_add q t p) as [[[|?]|] ?]; simpl
         end;
    (split_and!;
     [auto
     |rewrite ?elem_of_cons, elem_of_nil; naive_solver
     |done
     |intros H; first [discriminate H|split_and!; [done|done|by eexists]]
     |intros e H; first [discriminate H|split; done]]).
Qed.

End MoreProperties.

Section DatastoreProperties.

Context `{ds : Datastore}.

(** *** [CleanUpTaskEntities] *)

Lemma clean_up_rounds n : 200 ≤ n → S ((n - 200 + 199) / 200) = (n + 199) / 200.
Proof.
  intros Hn. replace (n + 199) with (n - 200 + 199 + 1 * 200) by lia.
  rewrite Nat.div_add by lia. lia.
Qed.

(** X14: on a datastore that holds [count s] entities (a fetch returns up to
    200 of them and deleting the fetched removes them), the loop of
    [CleanUpTaskEntities.post] ends within [count s / 200 + 1] passes, sets
    the status to 200, leaves no entity, and has deleted and slept once for
    every started batch of 200. *)
Theorem clean_up_deletes_everything (count : Store → nat) (fuel : nat)
    (resp : HandlerResponse) (s : Store) (sleeps : nat) :
  counts_entities count →
  count s / 200 < fuel →
  ∃ s', CleanUpTaskEntities_post fuel resp s sleeps =
          Some (set_status 200 resp, s', sleeps + (count s + 199) / 200) ∧
        count s' = 0.
Proof.
  intros [Hfetch Hdelete]. revert s sleeps.
  induction fuel as [|fuel IH]; intros s sleeps Hfuel; [lia|].
  cbn [CleanUpTaskEntities_post].
  pose proof (Hfetch s) as Hlen. pose proof (Hdelete s) as Hcount.
  destruct (fetch 200 s) as [|key batch] eqn:Hbatch;
    rewrite ?Hbatch in Hlen, Hcount.
  - cbn [length] in Hlen. assert (count s = 0) as Hzero by lia.
    exists s. split; [|done]. rewrite Hzero.
    replace ((0 + 199) / 200) with 0 by (symmetry; apply Nat.div_small; lia).
    by rewrite Nat.add_0_r.
  - case_decide as Hshort.
    + exists (db_delete (key :: batch) s). split; [|lia].
      assert ((count s + 199) / 200 = 1) as ->; [|by rewrite Nat.add_1_r].
      assert (0 < count s < 200) as Hn by (cbn [length] in *; lia).
      replace (count s + 199) with (count s - 1 + 1 * 200) by lia.
      rewrite Nat.div_add by lia. rewrite Nat.div_small; lia.
    + assert (200 ≤ count s ∧ length (key :: batch) = 200) as [Hn Hfull] by lia.
      destruct (IH (db_delete (key :: batch) s) (S sleeps)) as (s' & -> & Hs').
      { rewrite Hcount, Hfull.
        assert (count s / 200 = S ((count s - 200) / 200)) as Hdiv.
        { replace (count s) with (count s - 200 + 1 * 200) at 1 by lia.
          rewrite Nat.div_add by lia. lia. }
        lia. }
      exists s'. split; [|done]. rewrite Hcount, Hfull.
      do 2 f_equal. rewrite <-(clean_up_rounds (count s)) by done. lia.
Qed.

(** *** [TransactionalTaskWorker] and [TransactionalTaskHandler] *)


End DatastoreProperties.

(** ** Examples for the further properties *)

Lemma public_methods_bad_url_example :
  Application_post (env := Sample.scripted) Sample.application "/{lang}/{id}"
    None None false ∅ Sample.world =
  (inl (FormatError (Py.ArgumentNotFound "id")), Sample.world).
Proof.
  apply (public_methods_bad_url (env := Sample.scripted) Sample.application
           "/{lang}/{id}" None None false ∅ Sample.world
           (FormatError (Py.ArgumentNotFound "id")) Application_post "post").
  - apply list_elem_of_further, list_elem_of_here.
  - reflexivity.
  - reflexivity.
  - vm_compute. reflexivity.
Defined.

Lemma public_methods_silent_example :
  log (Application_get (env := Sample.scripted) Sample.application "/{lang}/x"
         None None false {["verbosity" := PyInt 0]} Sample.world).2 = [].
Proof.
  apply (public_methods_silent (env := Sample.scripted) Sample.application
           "/{lang}/x" None None false {["verbosity" := PyInt 0]} Sample.world
           (PyInt 0) Application_get "get").
  - apply list_elem_of_here.
  - vm_compute. reflexivity.
  - reflexivity.
Defined.

Lemma logged_request_sends_one_request_example :
  net (logged_request (env := Sample.scripted) Sample.application "get"
         "/{lang}/x" None None false (PyInt 2) ∅ Sample.world).2 =
  Sample.answers [].
Proof.
  apply (logged_request_sends_one_request (env := Sample.scripted)
           Sample.application "get" "/{lang}/x" None None false (PyInt 2) ∅
           Sample.world "http://10.0.0.1:8080/py/x").
  vm_compute. reflexivity.
Defined.

Lemma logged_request_reraises_example :
  (logged_request (env := Sample.scripted) Sample.application "get" "/{lang}/x"
     None None false (PyInt 2) ∅ Sample.offline).1 =
  inl (RequestException 0).
Proof.
  apply (logged_request_reraises (env := Sample.scripted) Sample.application
           "get" "/{lang}/x" None None false (PyInt 2) ∅
           Sample.offline "http://10.0.0.1:8080/py/x"
           (RequestException 0) (Sample.answers [])).
  - vm_compute. reflexivity.
  - reflexivity.
  - intros x Hx. by rewrite lookup_empty in Hx.
  - intros _ j Hj. by rewrite lookup_empty in Hj.
Defined.

Lemma logged_request_unserializable_json_example :
  logged_request (env := Sample.scripted) Sample.application "post" "/{lang}/x"
    None None false (PyInt 2) {["json" := PyObject 0 true]}
    Sample.offline =
  (inl (UnboundLocalError "request_body"), Sample.offline).
Proof.
  apply (logged_request_unserializable_json (env := Sample.scripted)
           Sample.application "post" "/{lang}/x" None None false (PyInt 2)
           {["json" := PyObject 0 true]} Sample.offline
           "http://10.0.0.1:8080/py/x" (RequestException 0)
           (TypeError "not JSON serializable") (Sample.answers [])
           (PyObject 0 true)).
  - vm_compute. reflexivity.
  - reflexivity.
  - vm_compute. reflexivity.
  - vm_compute. reflexivity.
  - reflexivity.
Defined.

Lemma build_url_joins_with_one_slash_example :
  ∃ b p, "https://10.0.0.1:4380/py/x" = b +:+ "/" +:+ p ∧
         (∀ t, b ≠ t +:+ "/") ∧ Py.startswith "/" p = false.
Proof.
  destruct (build_url_joins_with_one_slash (env := Sample.scripted)
              Sample.builder "appX" "//{lang}/x" None None true
              "https://10.0.0.1:4380/py/x")
    as (x & b & p & n & _ & _ & Hurl & Hend & Hstart).
  - vm_compute. reflexivity.
  - exists b, p. split_and!; [exact Hurl|exact Hend|exact Hstart].
Defined.

Lemma resolve_matches_request_example :
  Sample.app_version "appX" "moduleA" "default-version" true false
    ∈ Sample.versions ∧
  app_id (Sample.app_version "appX" "moduleA" "default-version" true false)
    = "appX".
Proof.
  destruct (resolve_matches_request (env := Sample.scripted) Sample.versions
              "py" Sample.builder "appX" (Some "moduleA") None
              (Sample.app_version "appX" "moduleA" "default-version" true false))
    as (Hin & Happ & _).
  - vm_compute. reflexivity.
  - by_evaluation.
  - reflexivity.
  - intros s [= <-]. reflexivity.
  - intros s [=].
  - intros [=].
  - vm_compute. reflexivity.
  - split; [exact Hin|exact Happ].
Defined.

Lemma versions_dict_last_write_example :
  versions_dict_of Sample.duplicate_default !! "moduleA.appX" =
  Some (Sample.app_version "appX" "moduleA" "v2" true false).
Proof.
  apply (versions_dict_last_write Sample.duplicate_default "moduleA.appX"
           (Sample.app_version "appX" "moduleA" "v2" true false)
           (take 4 (alias_writes Sample.duplicate_default)) []).
  - vm_compute. reflexivity.
  - intros y Hy. by apply elem_of_nil in Hy.
Defined.

Lemma versions_dict_size_example :
  size (_versions_dict Sample.builder) ≤ 9 ∧
  length (known_versions Sample.builder) = size (_versions_dict Sample.builder).
Proof.
  apply (versions_dict_size Sample.versions "py" Sample.builder).
  vm_compute. reflexivity.
Defined.

Lemma init_defaults_cover_modules_example :
  ∃ self, AppURLBuilder_init Sample.versions "py" = inr self.
Proof.
  apply (init_defaults_cover_modules Sample.versions "py" ltac:(by_evaluation)).
  intros v Hv.
  repeat (apply elem_of_cons in Hv as [->|Hv]); [..|by apply elem_of_nil in Hv];
    [exists (Sample.app_version "appX" "moduleA" "default-version" true false)
    |exists (Sample.app_version "appX" "moduleA" "default-version" true false)
    |exists (Sample.app_version "appX" "default" "main-version" true true)];
    (split_and!; [by_evaluation|reflexivity|reflexivity]).
Defined.

Lemma init_rejects_duplicate_default_example :
  ∃ self, AppURLBuilder_init Sample.dotted "py" = inr self.
Proof.
  apply (init_rejects_duplicate_default Sample.dotted "py").
  - intros v Hv. apply list_elem_of_singleton in Hv. subst v.
    exists (Sample.app_version "a" "m" "v" true false).
    split_and!; [by_evaluation|reflexivity|reflexivity].
  - by_evaluation.
Defined.

(** Deleting distinct keys that are bound removes one entry for each. *)
Lemma size_foldr_delete (s : gmap string string) (keys : list string) :
  NoDup keys →
  (∀ k, k ∈ keys → is_Some (s !! k)) →
  size (foldr delete s keys) = size s - length keys.
Proof.
  induction keys as [|k keys IH]; intros Hnodup Hin; simpl; [lia|].
  apply NoDup_cons in Hnodup as [Hk Hnodup].
  assert (foldr delete s keys !! k = s !! k) as Hlookup
    by (by apply lookup_foldr_delete_not_elem_of).
  destruct (Hin k) as [x Hx]; [by left|].
  rewrite map_size_delete, Hlookup, Hx. simpl.
  assert (size (foldr delete s keys) ≠ 0) as Hne.
  { apply map_size_ne_0_lookup. exists k. by rewrite Hlookup, Hx. }
  assert (size (foldr delete s keys) = size s - length keys) as Hsize.
  { apply IH; [done|]. intros k' Hk'. apply Hin. by right. }
  lia.
Qed.

(** The sample datastore holds [size s] entities. *)
Lemma map_store_counts_entities :
  counts_entities (ds := Sample.map_store) (λ s, size (s : gmap string string)).
Proof.
  split; intros s; simpl.
  - by rewrite length_take, length_fmap, length_map_to_list.
  - apply size_foldr_delete.
    + eapply sublist_NoDup; [|apply sublist_take].
      apply (NoDup_fst_map_to_list (s : gmap string string)).
    + intros k Hk%subseteq_take.
      apply list_elem_of_fmap in Hk as ([k' x] & -> & Hx%elem_of_map_to_list).
      by eexists.
Qed.

Lemma clean_up_deletes_everything_example :
  ∃ s', CleanUpTaskEntities_post (ds := Sample.map_store) 1
          {| status := 0; out := [] |}
          (Sample.entities {["task-1" := "TXN_UPDATE"; "task-2" := "TQ_UPDATE"]})
          0 = Some ({| status := 200; out := [] |}, s', 1) ∧
        size (s' : gmap string string) = 0.
Proof.
  destruct (clean_up_deletes_everything (ds := Sample.map_store)
              (λ s, size (s : gmap string string)) 1
              {| status := 0; out := [] |}
              (Sample.entities
                 {["task-1" := "TXN_UPDATE"; "task-2" := "TQ_UPDATE"]})
              0 map_store_counts_entities) as (s' & Hpost & Hempty).
  - vm_compute. lia.
  - exists s'. split; [exact Hpost|exact Hempty].
Defined.

